(** * af_volume: the volume filter of audio/filter/af_volume.c

    A shallow embedding of the gain computation, the control handler and the
    per-plane sample scaling, with the C arithmetic written out:

    - [float] is IEEE 754 binary32 and [double] binary64, both through the
      standard library's [SpecFloat] (round to nearest, ties to even);
      expressions are evaluated in the type C gives them (FLT_EVAL_METHOD 0);
    - [int] is a 32-bit two's complement integer carried as a [Z];
    - the filter instance is an explicit record threaded through each call. *)

From Stdlib Require Import ZArith Lia Bool.
From Stdlib Require Import SpecFloat.
From stdpp Require Import base list.

Local Open Scope Z_scope.

(** ** C floating-point types *)

Module F32.
Definition prec : Z := 24.
Definition emax : Z := 128.
Definition mul := SFmul prec emax.
Definition add := SFadd prec emax.
Definition div := SFdiv prec emax.
Definition of_int (n : Z) : spec_float := binary_normalize prec emax n 0 false.
Definition valid := valid_binary prec emax.
End F32.

Module F64.
Definition prec : Z := 53.
Definition emax : Z := 1024.
Definition mul := SFmul prec emax.
Definition sub := SFsub prec emax.
Definition div := SFdiv prec emax.
Definition of_int (n : Z) : spec_float := binary_normalize prec emax n 0 false.
Definition valid := valid_binary prec emax.
End F64.

(** The value conversions of C: [float] to [double] (exact), [double] to
    [float] (rounded to nearest even, overflow to infinity). *)
Definition convert (prec emax : Z) (x : spec_float) : spec_float :=
  match x with
  | S754_finite s m e => binary_normalize prec emax (cond_Zopp s (Zpos m)) e s
  | _ => x
  end.

Definition float_to_double : spec_float -> spec_float := convert F64.prec F64.emax.
Definition double_to_float : spec_float -> spec_float := convert F32.prec F32.emax.

(** [x != y]: true on a NaN. *)
Definition SFneqb (x y : spec_float) : bool := negb (SFeqb x y).

(** ** C integer types *)

Definition INT_MIN : Z := - 2 ^ 31.
Definition INT_MAX : Z := 2 ^ 31 - 1.
Definition SHRT_MIN : Z := - 32768.
Definition SHRT_MAX : Z := 32767.

(** Two's complement wrap-around to [w] bits. *)
Definition wrap (w : Z) (x : Z) : Z :=
  (x + 2 ^ (w - 1)) mod 2 ^ w - 2 ^ (w - 1).

Definition int_mul (x y : Z) : Z := wrap 32 (x * y).

(** Conversion of a [double] to [int]: the fractional part is discarded
    (truncation toward zero); the behaviour is undefined ( [None] ) when the
    integral part is not representable, and for infinities and NaN. *)
Definition double_to_int (x : spec_float) : option Z :=
  match x with
  | S754_zero _ => Some 0
  | S754_finite s m e =>
      let z := cond_Zopp s (Z.shiftl (Zpos m) e) in
      if (INT_MIN <=? z) && (z <=? INT_MAX) then Some z else None
  | _ => None
  end.

(** ** Macros of common/common.h *)

(** Modelled from the spec: the macros [MPMIN] and [MPCLAMP] of
    common/common.h, which is not under src/ ("min", "standard clamp"), in
    the form of a C conditional expression over the operands' own [<]:
    [MPMIN(a, b) = (a) > (b) ? (b) : (a)] and
    [MPCLAMP(a, min, max) = (a) < (min) ? (min) : ((a) > (max) ? (max) : (a))]. *)
Definition MPMIN {A : Type} (lt : A -> A -> bool) (a b : A) : A :=
  if lt b a then b else a.

Definition MPCLAMP {A : Type} (lt : A -> A -> bool) (a mi ma : A) : A :=
  if lt a mi then mi else if lt ma a then ma else a.

(** ** Sample formats (audio/format.h) *)

(** Modelled from the spec: the sample formats of audio/format.h, which is
    not under src/ ("fixed-point integer vs. floating point", "planar or
    interleaved"): the interleaved PCM formats and their planar variants. *)
Inductive af_format : Set :=
  | AF_FORMAT_UNKNOWN
  | AF_FORMAT_U8 | AF_FORMAT_S16 | AF_FORMAT_S24 | AF_FORMAT_S32
  | AF_FORMAT_FLOAT | AF_FORMAT_DOUBLE
  | AF_FORMAT_U8P | AF_FORMAT_S16P | AF_FORMAT_S32P
  | AF_FORMAT_FLOATP | AF_FORMAT_DOUBLEP.

Global Instance af_format_eq_dec : EqDecision af_format.
Proof. solve_decision. Defined.

(** Modelled from the spec: [af_fmt_from_planar] ("the de-planarized input
    representation"), [af_fmt_to_planar] and [af_fmt_is_planar] of
    audio/format.c; a format without a planar variant is returned as it is. *)
Definition af_fmt_from_planar (f : af_format) : af_format :=
  match f with
  | AF_FORMAT_U8P => AF_FORMAT_U8
  | AF_FORMAT_S16P => AF_FORMAT_S16
  | AF_FORMAT_S32P => AF_FORMAT_S32
  | AF_FORMAT_FLOATP => AF_FORMAT_FLOAT
  | AF_FORMAT_DOUBLEP => AF_FORMAT_DOUBLE
  | _ => f
  end.

Definition af_fmt_to_planar (f : af_format) : af_format :=
  match f with
  | AF_FORMAT_U8 => AF_FORMAT_U8P
  | AF_FORMAT_S16 => AF_FORMAT_S16P
  | AF_FORMAT_S32 => AF_FORMAT_S32P
  | AF_FORMAT_FLOAT => AF_FORMAT_FLOATP
  | AF_FORMAT_DOUBLE => AF_FORMAT_DOUBLEP
  | _ => f
  end.

Definition af_fmt_is_planar (f : af_format) : bool :=
  match f with
  | AF_FORMAT_U8P | AF_FORMAT_S16P | AF_FORMAT_S32P
  | AF_FORMAT_FLOATP | AF_FORMAT_DOUBLEP => true
  | _ => false
  end.

(** ** Audio frames (audio/audio.h) *)

(** Modelled from the spec: [struct mp_audio] of audio/audio.h, which is not
    under src/ ("an ordered sequence of planes; each plane is an ordered
    sequence of samples, uniformly either 16-bit signed integers or 32-bit
    floats"), with the fields this filter reads or writes.  A plane is the
    storage [filter_plane] reads as [int16_t *] or as [float *]. *)
Inductive plane : Type :=
  | PlaneS16 (a : list Z)
  | PlaneFloat (a : list spec_float).

Record mp_audio : Type := Build_mp_audio {
  format : af_format;
  rate : Z;
  nch : Z;                    (* channels.num *)
  samples : Z;                (* number of samples in each plane *)
  spf : Z;                    (* sub-samples per sample on each plane *)
  num_planes : Z;
  planes : list plane
}.

(** Modelled from the spec: [mp_audio_set_format], [mp_audio_copy_config]
    and [mp_audio_force_interleaved_format] of audio/audio.c ("only the
    per-sample numeric representation changes"): the first sets the format,
    the second copies format, rate and channels, the third replaces a planar
    format by its interleaved one. *)
Definition mp_audio_set_format (mpa : mp_audio) (f : af_format) : mp_audio :=
  Build_mp_audio f (rate mpa) (nch mpa) (samples mpa) (spf mpa)
                 (num_planes mpa) (planes mpa).

Definition mp_audio_copy_config (dst src : mp_audio) : mp_audio :=
  Build_mp_audio (format src) (rate src) (nch src) (samples dst) (spf dst)
                 (num_planes dst) (planes dst).

Definition mp_audio_force_interleaved_format (mpa : mp_audio) : mp_audio :=
  if af_fmt_is_planar (format mpa)
  then mp_audio_set_format mpa (af_fmt_from_planar (format mpa))
  else mpa.

Definition set_plane (data : mp_audio) (p : nat) (pl : plane) : mp_audio :=
  Build_mp_audio (format data) (rate data) (nch data) (samples data)
                 (spf data) (num_planes data) (<[p := pl]> (planes data)).

(** ** Filter instance *)

(** Modelled from the spec: [struct replaygain_data] of demux/demux.h, which
    is not under src/ ("optional{trackGain, trackPeak, albumGain,
    albumPeak}"). *)
Record replaygain_data : Type := Build_replaygain_data {
  track_gain : spec_float;
  track_peak : spec_float;
  album_gain : spec_float;
  album_peak : spec_float
}.

(** [struct priv] (lines 32-45). *)
Record priv : Type := Build_priv {
  vol : spec_float;                  (* User-specified non-linear volume *)
  level : spec_float;                (* User-specified gain level *)
  rgain : spec_float;                (* Replaygain level *)
  rgain_track : Z;
  rgain_album : Z;
  rgain_preamp : spec_float;
  rgain_clip : Z;
  replaygain_fallback : spec_float;
  soft : Z;
  fast : Z;
  detach : Z;
  cfg_volume : spec_float
}.

Definition set_vol (s : priv) (v : spec_float) : priv :=
  Build_priv v (level s) (rgain s) (rgain_track s) (rgain_album s)
             (rgain_preamp s) (rgain_clip s) (replaygain_fallback s)
             (soft s) (fast s) (detach s) (cfg_volume s).

Definition set_level (s : priv) (v : spec_float) : priv :=
  Build_priv (vol s) v (rgain s) (rgain_track s) (rgain_album s)
             (rgain_preamp s) (rgain_clip s) (replaygain_fallback s)
             (soft s) (fast s) (detach s) (cfg_volume s).

Definition set_rgain (s : priv) (v : spec_float) : priv :=
  Build_priv (vol s) (level s) v (rgain_track s) (rgain_album s)
             (rgain_preamp s) (rgain_clip s) (replaygain_fallback s)
             (soft s) (fast s) (detach s) (cfg_volume s).

(** Modelled from the spec: [struct af_instance] of audio/filter/af.h, which
    is not under src/, with the fields this filter uses.  [out_pool] stands
    for the buffer pool behind [af_make_writeable]: the outcomes of its next
    allocation attempts ([false] is out of memory).  [out_queued] is the
    queue filled by [af_add_output_frame]. *)
Record af_instance : Type := Build_af_instance {
  af_priv : priv;
  af_data : mp_audio;
  af_replaygain_data : option replaygain_data;
  out_pool : list bool;
  out_queued : list mp_audio
}.

Definition set_priv (af : af_instance) (s : priv) : af_instance :=
  Build_af_instance s (af_data af) (af_replaygain_data af)
                    (out_pool af) (out_queued af).

Definition set_data (af : af_instance) (d : mp_audio) : af_instance :=
  Build_af_instance (af_priv af) d (af_replaygain_data af)
                    (out_pool af) (out_queued af).

(** Modelled from the spec: [af_make_writeable] of audio/filter/af.c, which
    is not under src/ ("if not exclusively owned, a copy must be obtained
    before writing"; "an out-of-memory failure if a writable copy cannot be
    allocated").  The result is negative on failure; on success the frame
    holds the same samples in storage that may be written. *)
Definition af_make_writeable (af : af_instance) (data : mp_audio)
  : Z * af_instance :=
  match out_pool af with
  | false :: pool =>
      (-1, Build_af_instance (af_priv af) (af_data af) (af_replaygain_data af)
                             pool (out_queued af))
  | true :: pool =>
      (0, Build_af_instance (af_priv af) (af_data af) (af_replaygain_data af)
                            pool (out_queued af))
  | [] => (0, af)
  end.

(** Modelled from the spec: [af_add_output_frame] of audio/filter/af.c
    ("forwards the frame"): the frame is appended to the output queue. *)
Definition af_add_output_frame (af : af_instance) (data : mp_audio)
  : af_instance :=
  Build_af_instance (af_priv af) (af_data af) (af_replaygain_data af)
                    (out_pool af) (out_queued af ++ [data]).

(** Modelled from the spec: the result codes of audio/filter/af.h
    ("ok", "detach", "not handled"). *)
Definition AF_DETACH : Z := 2.
Definition AF_OK : Z := 1.
Definition AF_FALSE : Z := 0.
Definition AF_UNKNOWN : Z := -1.

(** The control messages this filter handles, each with the object its
    [arg] points to; [other] is any other command. *)
Inductive af_control : Type :=
  | AF_CONTROL_REINIT (in_ : mp_audio)
  | AF_CONTROL_SET_VOLUME (arg : spec_float)
  | AF_CONTROL_GET_VOLUME (arg : spec_float)
  | AF_CONTROL_other (cmd : Z).

(** What [arg] points to when [control] returns. *)
Inductive control_arg : Type :=
  | ArgAudio (a : mp_audio)
  | ArgFloat (f : spec_float)
  | ArgUntouched.

Record control_result : Type := Build_control_result {
  c_ret : Z;
  c_af : af_instance;
  c_arg : control_arg
}.

(** ** The filter (audio/filter/af_volume.c) *)

Section af_volume.

(** [pow] of <math.h>, on [double]. *)
Variable pow : spec_float -> spec_float -> spec_float.
(** [af_softclip] of audio/filter/af.h, on [float]. *)
Variable af_softclip : spec_float -> spec_float.
(** [af_test_output] of audio/filter/af.c: its result and what it leaves
    in [*out]. *)
Variable af_test_output : af_instance -> mp_audio -> Z * mp_audio.

(** Convert to gain value from dB (lines 48-53).  [in <= -200] compares in
    [float]; the quotient is a [float], promoted for [pow], whose [double]
    result is converted back by [return]. *)
Definition from_dB (in_ k mi ma : spec_float) : spec_float :=
  if SFleb in_ (F32.of_int (-200)) then
    double_to_float (F64.of_int 0)
  else
    double_to_float
      (pow (F64.of_int 10)
           (float_to_double (F32.div (MPCLAMP SFltb in_ mi ma) k))).

(** The three calls of the file pass the [double] constants
    [20.0, -200.0, 60.0] for the [float] parameters. *)
Definition from_dB_20 (in_ : spec_float) : spec_float :=
  from_dB in_ (double_to_float (F64.of_int 20))
              (double_to_float (SFopp (F64.of_int 200)))
              (double_to_float (F64.of_int 60)).

(** The literal [0.00001], the [double] nearest to 10^-5. *)
Definition c_0_00001 : spec_float :=
  Eval vm_compute in F64.div (F64.of_int 1) (F64.of_int 100000).

(** Lines 66-72: the format of [af->data]. *)
Definition reinit_format (s : priv) (data in_ : mp_audio) : mp_audio :=
  let data := mp_audio_copy_config data in_ in
  let data := mp_audio_force_interleaved_format data in
  let data :=
    if negb (fast s =? 0)
       && negb (bool_decide (af_fmt_from_planar (format in_) = AF_FORMAT_FLOAT))
    then mp_audio_set_format data AF_FORMAT_S16
    else mp_audio_set_format data AF_FORMAT_FLOAT in
  if af_fmt_is_planar (format in_)
  then mp_audio_set_format data (af_fmt_to_planar (format data))
  else data.

(** Lines 73-97: the replaygain level. *)
Definition reinit_rgain (s : priv) (rg : option replaygain_data) : priv :=
  let s := set_rgain s (double_to_float (F64.of_int 1)) in
  match (if negb (rgain_track s =? 0) || negb (rgain_album s =? 0)
         then rg else None) with
  | Some rg =>
      let '(gain, peak) :=
        if negb (rgain_track s =? 0)
        then (track_gain rg, track_peak rg)
        else (album_gain rg, album_peak rg) in
      let gain := F32.add gain (rgain_preamp s) in
      let s := set_rgain s (from_dB_20 gain) in
      if rgain_clip s =? 0 then    (* clipping prevention *)
        set_rgain s
          (double_to_float
             (MPMIN SFltb (float_to_double (rgain s))
                    (F64.div (F64.of_int 1) (float_to_double peak))))
      else s
  | None =>
      if SFneqb (replaygain_fallback s) (F32.of_int 0) then
        set_rgain s (from_dB_20 (replaygain_fallback s))
      else s
  end.

(** Line 98: [s->detach && fabs(s->level * s->rgain - 1.0) < 0.00001]. *)
Definition detach_test (s : priv) : bool :=
  negb (detach s =? 0)
  && SFltb (SFabs (F64.sub (float_to_double (F32.mul (level s) (rgain s)))
                           (F64.of_int 1)))
           c_0_00001.

(** [control] (lines 55-112). *)
Definition control (af : af_instance) (cmd : af_control) : control_result :=
  let s := af_priv af in
  match cmd with
  | AF_CONTROL_REINIT in_ =>
      let af := set_data af (reinit_format s (af_data af) in_) in
      let s := reinit_rgain s (af_replaygain_data af) in
      let af := set_priv af s in
      if detach_test s then
        Build_control_result AF_DETACH af (ArgAudio in_)
      else
        let '(r, out) := af_test_output af in_ in
        Build_control_result r af (ArgAudio out)
  | AF_CONTROL_SET_VOLUME arg =>
      let s := set_vol s arg in
      let s := set_level s
                 (double_to_float (pow (float_to_double (vol s))
                                       (F64.of_int 3))) in
      Build_control_result AF_OK (set_priv af s) (ArgFloat arg)
  | AF_CONTROL_GET_VOLUME _ =>
      Build_control_result AF_OK af (ArgFloat (vol s))
  | AF_CONTROL_other _ =>
      Build_control_result AF_UNKNOWN af ArgUntouched
  end.

(** The loop of lines 127-130 over [a[i .. i+n-1]]; reading past the end
    of the plane is undefined. *)
Fixpoint scale_s16 (vol : Z) (n i : nat) (a : list Z) : option (list Z) :=
  match n with
  | O => Some a
  | S n =>
      match a !! i with
      | Some ai =>
          let x := Z.shiftr (int_mul ai vol) 8 in
          scale_s16 vol n (S i)
                    (<[i := wrap 16 (MPCLAMP Z.ltb x SHRT_MIN SHRT_MAX)]> a)
      | None => None
      end
  end.

(** The loop of lines 138-141. *)
Fixpoint scale_float (soft : Z) (vol : spec_float) (n i : nat)
         (a : list spec_float) : option (list spec_float) :=
  match n with
  | O => Some a
  | S n =>
      match a !! i with
      | Some ai =>
          let x := F32.mul ai vol in
          let y :=
            if negb (soft =? 0) then float_to_double (af_softclip x)
            else MPCLAMP SFltb (float_to_double x)
                         (SFopp (F64.of_int 1)) (F64.of_int 1) in
          scale_float soft vol n (S i) (<[i := double_to_float y]> a)
      | None => None
      end
  end.

(** Line 118: the gain applied to every sample. *)
Definition plane_level (s : priv) : spec_float :=
  F32.mul (F32.mul (level s) (rgain s)) (from_dB_20 (cfg_volume s)).

(** Line 122: [int vol = 256.0 * level]. *)
Definition plane_vol_s16 (level : spec_float) : option Z :=
  double_to_int (F64.mul (F64.of_int 256) (float_to_double level)).

(** [filter_plane] (lines 114-144).  [None] is undefined behaviour: a
    [double] that does not fit [int], a plane that does not exist or is
    shorter than [num_samples], or samples of the other representation. *)
Definition filter_plane (af : af_instance) (data : mp_audio) (p : nat)
  : option (af_instance * mp_audio) :=
  let s := af_priv af in
  let level := plane_level s in
  let num_samples := int_mul (samples data) (spf data) in
  if bool_decide (af_fmt_from_planar (format (af_data af)) = AF_FORMAT_S16) then
    match plane_vol_s16 level with
    | Some vol =>
        if negb (vol =? 256) then
          let '(r, af) := af_make_writeable af data in
          if r <? 0 then Some (af, data)    (* oom *)
          else
            match planes data !! p with
            | Some (PlaneS16 a) =>
                match scale_s16 vol (Z.to_nat num_samples) 0 a with
                | Some a => Some (af, set_plane data p (PlaneS16 a))
                | None => None
                end
            | _ => None
            end
        else Some (af, data)
    | None => None
    end
  else if bool_decide (af_fmt_from_planar (format (af_data af)) = AF_FORMAT_FLOAT) then
    let vol := level in
    if SFneqb (float_to_double vol) (F64.of_int 1) then
      let '(r, af) := af_make_writeable af data in
      if r <? 0 then Some (af, data)    (* oom *)
      else
        match planes data !! p with
        | Some (PlaneFloat a) =>
            match scale_float (soft s) vol (Z.to_nat num_samples) 0 a with
            | Some a => Some (af, set_plane data p (PlaneFloat a))
            | None => None
            end
        | _ => None
        end
    else Some (af, data)
  else Some (af, data).

(** The loop of lines 149-150 over the planes [n .. n+k-1]. *)
Fixpoint filter_planes (af : af_instance) (data : mp_audio) (k n : nat)
  : option (af_instance * mp_audio) :=
  match k with
  | O => Some (af, data)
  | S k =>
      match filter_plane af data n with
      | Some (af, data) => filter_planes af data k (S n)
      | None => None
      end
  end.

(** [filter] (lines 146-154); [data] is [None] for a null pointer. *)
Definition filter (af : af_instance) (data : option mp_audio)
  : option (Z * af_instance) :=
  match data with
  | Some data =>
      match filter_planes af data (Z.to_nat (num_planes data)) 0 with
      | Some (af, data) => Some (0, af_add_output_frame af data)
      | None => None
      end
  | None => Some (0, af)
  end.

(** [af_open] (lines 156-163). *)
Definition af_open (af : af_instance) : Z * af_instance :=
  (AF_OK, set_priv af (set_level (af_priv af) (double_to_float (F64.of_int 1)))).

End af_volume.

(** ** Sample values for the examples *)

(** An instance of [pow] for the examples: the exponents at which ISO C
    fixes the result ([pow(x, +-0)] is 1 for every [x]) and the cube, which
    is computed exactly and rounded once. *)
Definition pow_sample (x y : spec_float) : spec_float :=
  match y with
  | S754_zero _ => F64.of_int 1
  | _ =>
      if SFeqb y (F64.of_int 3) then
        match x with
        | S754_finite s m e =>
            binary_normalize F64.prec F64.emax
                             (cond_Zopp s (Zpos (m * m * m))) (3 * e) s
        | _ => x
        end
      else S754_nan
  end.

(** Instances of [af_softclip] and [af_test_output] for the examples, none
    of which reaches the floating loop. *)
Definition softclip_sample (x : spec_float) : spec_float := x.

Definition test_output_sample (af : af_instance) (out : mp_audio)
  : Z * mp_audio :=
  if bool_decide (format (af_data af) = format out) then (AF_OK, out)
  else (AF_FALSE, af_data af).

Definition f32 (n d : Z) : spec_float := F32.div (F32.of_int n) (F32.of_int d).

Definition priv0 : priv :=
  Build_priv (F32.of_int 1) (F32.of_int 1) (F32.of_int 1) 0 0 (F32.of_int 0)
             0 (F32.of_int 0) 0 0 0 (F32.of_int 0).

Definition audio0 (f : af_format) (pl : list plane) (n : Z) : mp_audio :=
  Build_mp_audio f 44100 1 n 1 (Z.of_nat (length pl)) pl.

Definition af0 (s : priv) (f : af_format) (pool : list bool) : af_instance :=
  Build_af_instance s (audio0 f [] 0) None pool [].

Definition priv_detach : priv :=
  Build_priv (F32.of_int 1) (F32.of_int 1) (F32.of_int 1) 0 0 (F32.of_int 0)
             0 (F32.of_int 0) 0 0 1 (F32.of_int 0).

(** Gain 2.0: [level = 2.0], no replaygain, [volumedb = 0]. *)
Definition priv_gain2 : priv :=
  Build_priv (F32.of_int 1) (F32.of_int 2) (F32.of_int 1) 0 0 (F32.of_int 0)
             0 (F32.of_int 0) 0 0 0 (F32.of_int 0).

(** Gain 511/512. *)
Definition priv_gain_511_512 : priv :=
  Build_priv (F32.of_int 1) (f32 511 512) (F32.of_int 1) 0 0 (F32.of_int 0)
             0 (F32.of_int 0) 0 0 0 (F32.of_int 0).

(** Track replaygain with the option [replaygain-clip] set to [clip]. *)
Definition priv_track (clip : Z) : priv :=
  Build_priv (F32.of_int 1) (F32.of_int 1) (F32.of_int 1) 1 0 (F32.of_int 0)
             clip (F32.of_int 0) 0 0 0 (F32.of_int 0).

(** Metadata with gain 0 dB and the given peak. *)
Definition rg_peak (peak : spec_float) : replaygain_data :=
  Build_replaygain_data (F32.of_int 0) peak (F32.of_int 0) peak.

(** A frame of one plane, gain 2.0, and a pool that is out of memory. *)
Definition af_oom : af_instance := af0 priv_gain2 AF_FORMAT_S16 [false].
Definition frame_oom : mp_audio :=
  audio0 AF_FORMAT_S16 [PlaneS16 [10000; 30000]] 2.

(** The option [volumedb] (line 174) is written into [cfg_volume]. *)
Definition set_cfg_volume (s : priv) (v : spec_float) : priv :=
  Build_priv (vol s) (level s) (rgain s) (rgain_track s) (rgain_album s)
             (rgain_preamp s) (rgain_clip s) (replaygain_fallback s)
             (soft s) (fast s) (detach s) v.

(** ** Rounding: auxiliary definitions *)

(** What [binary_round_aux] returns for a mantissa [q] on the exponent [f],
    before the carry and the overflow test. *)
Definition round_result (prec emax : Z) (sx : bool) (q f : Z)
           (r : spec_float) : Prop :=
  match r with
  | S754_zero s => s = sx /\ q = 0
  | S754_infinity s => s = sx
  | S754_nan => False
  | S754_finite s m e =>
      s = sx /\ bounded prec emax m e = true /\ f <= e /\
      q <= Zpos m * 2 ^ (e - f) <= q + 1
  end.

(** The mantissa [binary_round] starts from: [mx * 2 ^ ex] on the exponent
    [f] of the format, truncated. *)
Definition round_q (prec emax : Z) (mx : positive) (ex : Z) : Z :=
  let f := fexp prec emax (Zdigits2 (Zpos mx) + ex) in
  Zpos mx * 2 ^ (ex - Z.min ex f) / 2 ^ (f - Z.min ex f).

(** The numbers with a clear sign bit: [+0], the positive finite numbers
    and [+infinity]. *)
Definition SFnonneg (x : spec_float) : Prop :=
  match x with
  | S754_zero false | S754_infinity false | S754_finite false _ _ => True
  | _ => False
  end.


(** ** The spec's integer gain *)

(** The spec's words for the fixed-point gain, [round(256 * gain)]: the
    nearest integer, halves away from zero, of the exact product, for a
    non-negative finite [gain].  [floor (x + 1/2)] is
    [(floor (2 * x) + 1) / 2]. *)
Definition intGain_spec (gain : spec_float) : option Z :=
  match gain with
  | S754_zero _ => Some 0
  | S754_finite false m e => Some ((Z.shiftl (Zpos m) (e + 9) + 1) / 2)
  | _ => None
  end.

(** ** The spec's fixed-point scaling *)

(** The spec's words for the scaling of one sample,
    [(sample * intGain) >> 8] clamped to the 16-bit signed range, on the
    integers. *)
Definition scale_spec (sample intGain : Z) : Z :=
  Z.max SHRT_MIN (Z.min SHRT_MAX (Z.shiftr (sample * intGain) 8)).

(** ** The spec's floating-point formats *)

(** The spec's words "floating point": the formats whose samples are
    floating-point numbers, of single or double precision. *)
Definition is_floating_point_spec (f : af_format) : bool :=
  match f with
  | AF_FORMAT_FLOAT | AF_FORMAT_DOUBLE
  | AF_FORMAT_FLOATP | AF_FORMAT_DOUBLEP => true
  | _ => false
  end.

(** ** The guard of the loops *)


(** ** Further sample values *)

(** [volumedb = 60], the upper end of the option's range (line 174): gain
    1000. *)
Definition priv_db60 : priv := set_cfg_volume priv0 (F32.of_int 60).

(** The option [s16] set. *)
Definition priv_fast : priv :=
  Build_priv (F32.of_int 1) (F32.of_int 1) (F32.of_int 1) 0 0 (F32.of_int 0)
             0 (F32.of_int 0) 0 1 0 (F32.of_int 0).


(** ** Auxiliary definitions for the further properties *)

(** The fields of [struct priv] that hold options (lines 174-182). *)
Definition same_options (s s' : priv) : Prop :=
  rgain_track s' = rgain_track s /\ rgain_album s' = rgain_album s /\
  rgain_preamp s' = rgain_preamp s /\ rgain_clip s' = rgain_clip s /\
  replaygain_fallback s' = replaygain_fallback s /\
  soft s' = soft s /\ fast s' = fast s /\ detach s' = detach s /\
  cfg_volume s' = cfg_volume s.

(** What does not depend on the samples of a frame. *)
Definition same_shape (d d' : mp_audio) : Prop :=
  format d' = format d /\ rate d' = rate d /\ nch d' = nch d /\
  samples d' = samples d /\ spf d' = spf d /\
  num_planes d' = num_planes d /\
  length (planes d') = length (planes d).

(** Two planes of the same representation and the same number of
    samples. *)
Definition same_plane_shape (pl pl' : plane) : Prop :=
  match pl, pl' with
  | PlaneS16 a, PlaneS16 a' => length a' = length a
  | PlaneFloat a, PlaneFloat a' => length a' = length a
  | _, _ => False
  end.

(** A [float] that is not an infinity and not a NaN. *)
Definition SFfinite (x : spec_float) : bool :=
  match x with
  | S754_zero _ | S754_finite _ _ _ => true
  | _ => false
  end.

(** The fixed-point loop of [filter_plane] runs on plane [p], which holds
    the samples [a], with the integer gain [vol]: the format is 16-bit, the
    gain is not 256, the frame can be written, and the plane has
    [num_samples] samples. *)
Definition s16_plane_ready (pow : spec_float -> spec_float -> spec_float)
           (af : af_instance) (data : mp_audio) (p : nat) (vol : Z)
           (a : list Z) : Prop :=
  af_fmt_from_planar (format (af_data af)) = AF_FORMAT_S16 /\
  plane_vol_s16 (plane_level pow (af_priv af)) = Some vol /\
  vol <> 256 /\
  0 <= fst (af_make_writeable af data) /\
  planes data !! p = Some (PlaneS16 a) /\
  int_mul (samples data) (spf data) <= Z.of_nat (length a).

(** The floating loop of [filter_plane] runs on plane [p], which holds the
    samples [a], with the gain [vol]. *)
Definition float_plane_ready (pow : spec_float -> spec_float -> spec_float)
           (af : af_instance) (data : mp_audio) (p : nat)
           (vol : spec_float) (a : list spec_float) : Prop :=
  af_fmt_from_planar (format (af_data af)) = AF_FORMAT_FLOAT /\
  plane_level pow (af_priv af) = vol /\
  SFneqb (float_to_double vol) (F64.of_int 1) = true /\
  0 <= fst (af_make_writeable af data) /\
  planes data !! p = Some (PlaneFloat a) /\
  int_mul (samples data) (spf data) <= Z.of_nat (length a).

(** The number of samples the loops of [filter_plane] visit (line 119). *)
Definition num_samples (data : mp_audio) : nat :=
  Z.to_nat (int_mul (samples data) (spf data)).

(** A frame with other planes. *)
Definition set_planes (data : mp_audio) (pls : list plane) : mp_audio :=
  Build_mp_audio (format data) (rate data) (nch data) (samples data)
                 (spf data) (num_planes data) pls.

(** The fixed-point loop of lines 127-130 as a map over a plane, and the
    same for a whole frame. *)
Definition scaled_s16 (vol : Z) (n : nat) (a : list Z) : list Z :=
  map (fun x => Z.max SHRT_MIN (Z.min SHRT_MAX (int_mul x vol / 256)))
      (take n a)
  ++ drop n a.

(** The same with the exact product: what the loop stores when the
    products fit [int]. *)
Definition scaled_exact_s16 (vol : Z) (n : nat) (a : list Z) : list Z :=
  map (fun x => Z.max SHRT_MIN (Z.min SHRT_MAX (x * vol / 256))) (take n a)
  ++ drop n a.

(** The instance after [k] calls of [af_make_writeable]: each takes an
    entry of the pool. *)
Definition pool_after (af : af_instance) (k : nat) : af_instance :=
  Build_af_instance (af_priv af) (af_data af) (af_replaygain_data af)
                    (drop k (out_pool af)) (out_queued af).

(** What [filter] keeps of a frame: everything but the values of the
    samples. *)
Definition frame_kept (d d' : mp_audio) : Prop :=
  same_shape d d' /\
  forall q pl, planes d !! q = Some pl ->
               exists pl', planes d' !! q = Some pl' /\
                           same_plane_shape pl pl'.

(** ** Further sample values *)

(** Gain 0.5. *)
Definition priv_half : priv := set_level priv0 (f32 1 2).

(** [volumedb = -200]. *)
Definition priv_mute : priv := set_cfg_volume priv0 (F32.of_int (-200)).

(** Gain 2.0 with soft clipping. *)
Definition priv_soft : priv :=
  Build_priv (F32.of_int 1) (F32.of_int 2) (F32.of_int 1) 0 0 (F32.of_int 0)
             0 (F32.of_int 0) 1 0 0 (F32.of_int 0).

(** No replaygain option, [replaygain-fallback = -200]. *)
Definition priv_fallback : priv :=
  Build_priv (F32.of_int 1) (F32.of_int 1) (F32.of_int 1) 0 0 (F32.of_int 0)
             0 (F32.of_int (-200)) 0 0 0 (F32.of_int 0).

(** A pool that serves one copy. *)
Definition af_half : af_instance := af0 priv_half AF_FORMAT_S16 [true].

(** Frames of one plane of three samples, of which the loops visit two. *)
Definition samples_s16 : list Z := [10000; -30000; 7].
Definition frame_s16 : mp_audio :=
  audio0 AF_FORMAT_S16 [PlaneS16 samples_s16] 2.

Definition samples_float : list spec_float :=
  [f32 3 4; F32.of_int (-1); f32 1 4].
Definition frame_float : mp_audio :=
  audio0 AF_FORMAT_FLOAT [PlaneFloat samples_float] 2.

(** An instance of [af_softclip] for the floating loop: it returns numbers
    of the [float] format only. *)
Definition softclip_valid_sample (x : spec_float) : spec_float :=
  if F32.valid x then x else S754_nan.
(** ** Binary digits *)

Lemma digits2_pos_bounds (p : positive) :
  2 ^ (Zpos (digits2_pos p) - 1) <= Zpos p < 2 ^ Zpos (digits2_pos p).
Proof.
  induction p as [p IH|p IH|]; simpl digits2_pos.
  - rewrite Pos2Z.inj_succ.
    replace (Z.succ (Zpos (digits2_pos p)) - 1) with (Z.succ (Zpos (digits2_pos p) - 1)) by lia.
    rewrite !Z.pow_succ_r by lia. lia.
  - rewrite Pos2Z.inj_succ.
    replace (Z.succ (Zpos (digits2_pos p)) - 1) with (Z.succ (Zpos (digits2_pos p) - 1)) by lia.
    rewrite !Z.pow_succ_r by lia. lia.
  - simpl. lia.
Qed.

Lemma Zdigits2_bounds (m : Z) :
  0 < m -> 2 ^ (Zdigits2 m - 1) <= m < 2 ^ Zdigits2 m.
Proof. destruct m; try lia. intros _. apply digits2_pos_bounds. Qed.

Lemma Zdigits2_nonneg (m : Z) : 0 <= Zdigits2 m.
Proof. destruct m; simpl; lia. Qed.

Lemma Zdigits2_pos (m : Z) : 0 < m -> 0 < Zdigits2 m.
Proof. destruct m; simpl; lia. Qed.

Lemma Zdigits2_unique (m k : Z) :
  2 ^ (k - 1) <= m < 2 ^ k -> 0 < m -> Zdigits2 m = k.
Proof.
  intros [Hlo Hhi] Hm.
  pose proof (Zdigits2_bounds m Hm) as [Dlo Dhi].
  pose proof (Zdigits2_pos m Hm) as Dpos.
  assert (0 < k). { destruct (Z_lt_le_dec 0 k); trivial.
    rewrite Z.pow_neg_r in Hlo by lia.
    destruct (Z.eq_dec k 0) as [->|]; [simpl in Hhi; lia|].
    rewrite Z.pow_neg_r in Hhi by lia. lia. }
  assert (Zdigits2 m - 1 < k).
  { apply (Z.pow_lt_mono_r_iff 2); lia. }
  assert (k - 1 < Zdigits2 m).
  { apply (Z.pow_lt_mono_r_iff 2); lia. }
  lia.
Qed.

Lemma Zdigits2_shiftl (m k : Z) :
  0 < m -> 0 <= k -> Zdigits2 (m * 2 ^ k) = Zdigits2 m + k.
Proof.
  intros Hm Hk. pose proof (Zdigits2_bounds m Hm) as [Dlo Dhi].
  pose proof (Zdigits2_pos m Hm).
  apply Zdigits2_unique; [|nia].
  replace (Zdigits2 m + k - 1) with ((Zdigits2 m - 1) + k) by lia.
  rewrite !Z.pow_add_r by lia. nia.
Qed.

Lemma Zdigits2_div_pow2 (m n : Z) :
  0 < m -> 0 <= n -> n < Zdigits2 m -> Zdigits2 (m / 2 ^ n) = Zdigits2 m - n.
Proof.
  intros Hm Hn Hlt. pose proof (Zdigits2_bounds m Hm) as [Dlo Dhi].
  assert (Hp : 0 < 2 ^ n) by (apply Z.pow_pos_nonneg; lia).
  assert (Hlo : 2 ^ (Zdigits2 m - n - 1) <= m / 2 ^ n).
  { apply Z.div_le_lower_bound; trivial.
    rewrite <- Z.pow_add_r by lia.
    replace (n + (Zdigits2 m - n - 1)) with (Zdigits2 m - 1) by lia. trivial. }
  assert (Hhi : m / 2 ^ n < 2 ^ (Zdigits2 m - n)).
  { apply Z.div_lt_upper_bound; trivial.
    rewrite <- Z.pow_add_r by lia.
    replace (n + (Zdigits2 m - n)) with (Zdigits2 m) by lia. trivial. }
  apply Zdigits2_unique; [split; trivial|].
  assert (0 < 2 ^ (Zdigits2 m - n - 1)) by (apply Z.pow_pos_nonneg; lia). lia.
Qed.

Lemma div_pow2_small (m n : Z) :
  0 <= m -> Zdigits2 m <= n -> m / 2 ^ n = 0.
Proof.
  intros Hm Hn. destruct (Z.eq_dec m 0) as [->|]. { apply Z.div_0_l.
    assert (0 < 2 ^ n) by (apply Z.pow_pos_nonneg; pose proof (Zdigits2_nonneg 0); simpl in *; lia). lia. }
  pose proof (Zdigits2_bounds m ltac:(lia)) as [Dlo Dhi].
  apply Z.div_small. split; [lia|].
  eapply Z.lt_le_trans; [exact Dhi|]. apply Z.pow_le_mono_r; lia.
Qed.

Lemma Pos_iter_xO (m : positive) (k : positive) :
  Zpos (Pos.iter xO m k) = Zpos m * 2 ^ Zpos k.
Proof.
  rewrite Pos2Nat.inj_iter, <- (positive_nat_Z k).
  induction (Pos.to_nat k) as [|n IH].
  - simpl. lia.
  - rewrite Nat2Z.inj_succ, Z.pow_succ_r by lia.
    etransitivity; [apply (Pos2Z.inj_xO (nat_rect _ m (fun _ => xO) n))|].
    rewrite IH. ring.
Qed.

Lemma Zdigits2_le (a b : Z) : 0 <= a -> a <= b -> Zdigits2 a <= Zdigits2 b.
Proof.
  intros Ha Hab. destruct (Z.eq_dec a 0) as [->|].
  { apply Zdigits2_nonneg. }
  pose proof (Zdigits2_bounds a ltac:(lia)) as [Alo Ahi].
  pose proof (Zdigits2_bounds b ltac:(lia)) as [Blo Bhi].
  pose proof (Zdigits2_pos b ltac:(lia)).
  assert (Zdigits2 a - 1 < Zdigits2 b); [|lia].
  apply (Z.pow_lt_mono_r_iff 2); lia.
Qed.

(** ** Right shifts with round and sticky bits *)

Lemma iter_pos_nat {A : Type} (f : A -> A) (n : positive) (x : A) :
  SpecFloat.iter_pos f n x = Nat.iter (Pos.to_nat n) f x.
Proof.
  revert x. induction n as [n IH|n IH|]; intros x; simpl SpecFloat.iter_pos.
  - rewrite !IH, Pos2Nat.inj_xI.
    change (S (2 * Pos.to_nat n))%nat with (S (Pos.to_nat n + (Pos.to_nat n + 0)))%nat.
    rewrite Nat.add_0_r, <- Nat.iter_succ_r, <- Nat.iter_add.
    f_equal. lia.
  - rewrite !IH, Pos2Nat.inj_xO, <- Nat.iter_add. f_equal. lia.
  - reflexivity.
Qed.

Lemma shr_1_m (r : shr_record) :
  0 <= shr_m r -> shr_m (shr_1 r) = shr_m r / 2.
Proof.
  destruct r as [m r s]. simpl shr_m. intros Hm.
  destruct m as [|p|p]; [reflexivity| |lia].
  destruct p as [p|p|]; simpl shr_m.
  - apply Z.div_unique with 1; lia.
  - apply Z.div_unique with 0; lia.
  - reflexivity.
Qed.

Lemma iter_shr_1_m (k : nat) (r : shr_record) :
  0 <= shr_m r ->
  shr_m (Nat.iter k shr_1 r) = shr_m r / 2 ^ Z.of_nat k.
Proof.
  intros Hm. induction k as [|k IH].
  - simpl. now rewrite Z.div_1_r.
  - change (Nat.iter (S k) shr_1 r) with (shr_1 (Nat.iter k shr_1 r)).
    assert (0 < 2 ^ Z.of_nat k) by (apply Z.pow_pos_nonneg; lia).
    rewrite shr_1_m, IH; [|rewrite IH; apply Z.div_pos; lia].
    rewrite Nat2Z.inj_succ, Z.pow_succ_r by lia.
    rewrite Z.div_div by lia. f_equal. lia.
Qed.

Lemma shr_1_even (m : Z) :
  0 <= m ->
  shr_1 (Build_shr_record (2 * m) false false) = Build_shr_record m false false.
Proof. destruct m; [reflexivity|reflexivity|lia]. Qed.

Lemma iter_shr_1_exact (k : nat) (m : Z) :
  0 <= m ->
  Nat.iter k shr_1 (Build_shr_record (m * 2 ^ Z.of_nat k) false false)
  = Build_shr_record m false false.
Proof.
  intros Hm. revert m Hm. induction k as [|k IH]; intros m Hm.
  - simpl. now rewrite Z.mul_1_r.
  - rewrite Nat.iter_succ_r, Nat2Z.inj_succ, Z.pow_succ_r by lia.
    replace (m * (2 * 2 ^ Z.of_nat k)) with (2 * (m * 2 ^ Z.of_nat k)) by ring.
    rewrite shr_1_even; [now apply IH|].
    assert (0 < 2 ^ Z.of_nat k) by (apply Z.pow_pos_nonneg; lia). nia.
Qed.

Lemma shr_m_of_loc (m : Z) (l : location) :
  shr_m (shr_record_of_loc m l) = m.
Proof. destruct l as [|[]]; reflexivity. Qed.

Lemma round_nearest_even_range (q : Z) (l : location) :
  q <= round_nearest_even q l <= q + 1.
Proof.
  destruct l as [|[]]; simpl; try lia. destruct (Z.even q); lia.
Qed.

Lemma shr_spec (mrs : shr_record) (e n : Z) :
  0 <= shr_m mrs -> 0 <= n ->
  snd (shr mrs e n) = e + n /\
  shr_m (fst (shr mrs e n)) = shr_m mrs / 2 ^ n.
Proof.
  intros Hm Hn. destruct n as [|n|n]; [| |lia]; simpl.
  - rewrite Z.div_1_r. lia.
  - rewrite iter_pos_nat, iter_shr_1_m, positive_nat_Z by trivial. auto.
Qed.

Lemma shr_nop (mrs : shr_record) (e n : Z) :
  n <= 0 -> shr mrs e n = (mrs, e).
Proof. destruct n; [reflexivity|lia|reflexivity]. Qed.

Lemma Zdigits2_pow2 (k : Z) : 0 <= k -> Zdigits2 (2 ^ k) = k + 1.
Proof.
  intros Hk. assert (0 < 2 ^ k) by (apply Z.pow_pos_nonneg; lia).
  apply Zdigits2_unique; [|lia].
  replace (k + 1 - 1) with k by lia. rewrite Z.pow_add_r by lia.
  simpl (2 ^ 1). lia.
Qed.

Lemma Zdigits2_div (a b : Z) :
  0 < a -> 0 < b -> Zdigits2 a - Zdigits2 b <= Zdigits2 (a / b).
Proof.
  intros Ha Hb.
  destruct (Z_le_gt_dec (Zdigits2 a) (Zdigits2 b)) as [Hle|Hgt].
  { pose proof (Zdigits2_nonneg (a / b)). lia. }
  pose proof (Zdigits2_bounds a Ha) as [Alo _].
  pose proof (Zdigits2_bounds b Hb) as [_ Bhi].
  pose proof (Zdigits2_pos b Hb) as Bpos.
  assert (H2 : 2 ^ (Zdigits2 a - Zdigits2 b - 1) <= a / b).
  { apply Z.div_le_lower_bound; [lia|].
    apply Z.le_trans with (2 ^ Zdigits2 b * 2 ^ (Zdigits2 a - Zdigits2 b - 1)).
    - apply Z.mul_le_mono_nonneg_r; [apply Z.pow_nonneg|]; lia.
    - rewrite <- Z.pow_add_r by lia.
      replace (Zdigits2 b + (Zdigits2 a - Zdigits2 b - 1))
        with (Zdigits2 a - 1) by lia. exact Alo. }
  assert (H3 : 0 <= 2 ^ (Zdigits2 a - Zdigits2 b - 1))
    by (apply Z.pow_nonneg; lia).
  pose proof (Zdigits2_le _ _ H3 H2) as H4.
  rewrite Zdigits2_pow2 in H4 by lia. lia.
Qed.

(** ** Order of dyadic numbers *)

Lemma pow2_split (a b : Z) : 0 <= a -> 0 <= b -> 2 ^ (a + b) = 2 ^ a * 2 ^ b.
Proof. intros. now apply Z.pow_add_r. Qed.

(** [a * 2 ^ e1 <= b * 2 ^ e2], on any common scale [c]. *)
Lemma dyadic_le_scale (a e1 b e2 c c' : Z) :
  c <= e1 -> c <= e2 -> c' <= e1 -> c' <= e2 ->
  a * 2 ^ (e1 - c) <= b * 2 ^ (e2 - c) ->
  a * 2 ^ (e1 - c') <= b * 2 ^ (e2 - c').
Proof.
  intros H1 H2 H3 H4 H.
  assert (Hmin : forall d, d <= e1 -> d <= e2 ->
            (a * 2 ^ (e1 - d) <= b * 2 ^ (e2 - d) <->
             a * 2 ^ (e1 - Z.min e1 e2) <= b * 2 ^ (e2 - Z.min e1 e2))).
  { intros d D1 D2.
    replace (e1 - d) with ((e1 - Z.min e1 e2) + (Z.min e1 e2 - d)) by lia.
    replace (e2 - d) with ((e2 - Z.min e1 e2) + (Z.min e1 e2 - d)) by lia.
    rewrite !pow2_split by lia. rewrite !Z.mul_assoc.
    assert (0 < 2 ^ (Z.min e1 e2 - d)) by (apply Z.pow_pos_nonneg; lia).
    symmetry. apply Z.mul_le_mono_pos_r. lia. }
  apply Hmin; trivial. apply (Hmin c); trivial.
Qed.

(** ** Rounding to a format *)

Section rounding.

Variables prec emax : Z.
Hypothesis Hprec : 0 < prec.

Lemma fexp_eq (e : Z) :
  fexp prec emax e = Z.max (e - prec) (emin prec emax).
Proof. reflexivity. Qed.

Lemma shr_fexp_spec (m e : Z) (l : location) :
  0 <= m -> e <= fexp prec emax (Zdigits2 m + e) ->
  snd (shr_fexp prec emax m e l) = fexp prec emax (Zdigits2 m + e) /\
  shr_m (fst (shr_fexp prec emax m e l))
  = m / 2 ^ (fexp prec emax (Zdigits2 m + e) - e).
Proof.
  intros Hm He. unfold shr_fexp.
  destruct (shr_spec (shr_record_of_loc m l) e
              (fexp prec emax (Zdigits2 m + e) - e)) as [E1 E2].
  - now rewrite shr_m_of_loc.
  - lia.
  - rewrite E1, E2, shr_m_of_loc. split; [lia|reflexivity].
Qed.

Lemma shr_fexp_nop (m e : Z) (l : location) :
  fexp prec emax (Zdigits2 m + e) <= e ->
  shr_fexp prec emax m e l = (shr_record_of_loc m l, e).
Proof. intros He. unfold shr_fexp. apply shr_nop. lia. Qed.

Lemma binary_round_aux_spec (sx : bool) (mx ex : Z) (lx : location) :
  0 <= mx -> ex <= fexp prec emax (Zdigits2 mx + ex) ->
  round_result prec emax sx (mx / 2 ^ (fexp prec emax (Zdigits2 mx + ex) - ex))
               (fexp prec emax (Zdigits2 mx + ex))
               (binary_round_aux prec emax sx mx ex lx).
Proof.
  intros Hm He.
  set (f := fexp prec emax (Zdigits2 mx + ex)) in *.
  set (q := mx / 2 ^ (f - ex)).
  unfold binary_round_aux.
  destruct (shr_fexp_spec mx ex lx Hm He) as [E1 E2]. fold f in E1, E2.
  destruct (shr_fexp prec emax mx ex lx) as [mrs' e'].
  simpl in E1, E2. subst e'. rewrite E2. fold q.
  set (m1 := round_nearest_even q (loc_of_shr_record mrs')).
  pose proof (round_nearest_even_range q (loc_of_shr_record mrs')) as Hm1.
  fold m1 in Hm1.
  assert (Hp : 0 < 2 ^ (f - ex)) by (apply Z.pow_pos_nonneg; lia).
  assert (Hq0 : 0 <= q) by (apply Z.div_pos; lia).
  assert (Hfe : emin prec emax <= f) by (subst f; rewrite fexp_eq; lia).
  assert (Hdq : Zdigits2 q <= prec).
  { destruct (Z_lt_le_dec (f - ex) (Zdigits2 mx)) as [Hlt|Hge].
    - assert (0 < mx) by (destruct mx; simpl in *; lia).
      subst q. rewrite Zdigits2_div_pow2 by lia.
      subst f. rewrite fexp_eq in *. lia.
    - subst q. rewrite div_pow2_small by lia. simpl. lia. }
  assert (Hfull : emin prec emax < f -> Zdigits2 q = prec).
  { intros Hlt. assert (Hf : f = Zdigits2 mx + ex - prec)
      by (subst f; rewrite fexp_eq in *; lia).
    assert (0 < mx).
    { destruct mx as [|p|p]; [|lia|lia]. simpl in Hf. lia. }
    subst q. rewrite Zdigits2_div_pow2; lia. }
  destruct (Z.eq_dec m1 0) as [Hz|Hnz].
  - rewrite Hz, shr_fexp_nop by (simpl; rewrite fexp_eq; lia).
    simpl. split; [reflexivity|lia].
  - assert (Hm1pos : 0 < m1) by lia.
    pose proof (Zdigits2_bounds m1 Hm1pos) as [Dlo Dhi].
    pose proof (Zdigits2_pos m1 Hm1pos) as Dpos.
    destruct (Z_le_gt_dec (Zdigits2 m1) prec) as [Hle|Hgt].
    + rewrite shr_fexp_nop by (rewrite fexp_eq; lia).
      simpl shr_m. destruct m1 as [|p|p] eqn:Em1; [lia| |lia].
      destruct (Z.leb_spec f (emax - prec)) as [Hb|Hb]; simpl; [|reflexivity].
      split; [reflexivity|]. split; [|rewrite Z.sub_diag; simpl; lia].
      unfold bounded, canonical_mantissa. apply andb_true_iff. split.
      * apply Z.eqb_eq. rewrite fexp_eq.
        change (Z.pos (digits2_pos p)) with (Zdigits2 (Z.pos p)).
        destruct (Z.eq_dec f (emin prec emax)) as [Hf|Hf]; [lia|].
        assert (Zdigits2 q <= Zdigits2 (Z.pos p)) by (apply Zdigits2_le; lia).
        rewrite Hfull in * by lia. lia.
      * now apply Z.leb_le.
    + (* the rounded mantissa is 2 ^ prec: one more shift *)
      pose proof (Zdigits2_nonneg q) as Dq0.
      assert (Hq2 : q < 2 ^ prec).
      { destruct (Z.eq_dec q 0) as [->|]; [apply Z.pow_pos_nonneg; lia|].
        pose proof (Zdigits2_bounds q ltac:(lia)) as [_ Qhi].
        eapply Z.lt_le_trans; [exact Qhi|]. apply Z.pow_le_mono_r; lia. }
      assert (Hpp : 2 ^ prec <= 2 ^ (Zdigits2 m1 - 1))
        by (apply Z.pow_le_mono_r; lia).
      assert (Em1 : m1 = 2 ^ prec) by lia.
      assert (Ed1 : Zdigits2 m1 = prec + 1).
      { apply Zdigits2_unique; [|lia].
        replace (prec + 1 - 1) with prec by lia.
        rewrite Z.pow_add_r by lia. simpl (2 ^ 1). lia. }
      unfold shr_fexp. rewrite Ed1.
      replace (fexp prec emax (prec + 1 + f) - f) with 1
        by (rewrite fexp_eq; lia).
      change (shr (shr_record_of_loc m1 loc_Exact) f 1)
        with (shr_1 (Build_shr_record m1 false false), f + 1).
      assert (Hs : shr_m (shr_1 (Build_shr_record m1 false false))
                   = 2 ^ (prec - 1)).
      { rewrite shr_1_m by (simpl; lia). simpl shr_m. rewrite Em1.
        replace prec with (prec - 1 + 1) at 1 by lia.
        rewrite Z.pow_add_r by lia. simpl (2 ^ 1).
        apply Z.div_mul. lia. }
      cbv beta iota zeta. rewrite Hs.
      assert (Hpm : 0 < 2 ^ (prec - 1)) by (apply Z.pow_pos_nonneg; lia).
      destruct (2 ^ (prec - 1)) as [|p|p] eqn:Ep; [lia| |lia].
      destruct (Z.leb_spec (f + 1) (emax - prec)) as [Hb|Hb]; simpl; [|reflexivity].
      split; [reflexivity|].
      assert (E2p : 2 ^ prec = 2 * Z.pos p).
      { replace prec with (prec - 1 + 1) at 1 by lia.
        rewrite Z.pow_add_r by lia. simpl (2 ^ 1). lia. }
      split; [|split; [lia|]].
      * unfold bounded, canonical_mantissa. apply andb_true_iff. split.
        -- apply Z.eqb_eq. rewrite fexp_eq.
           change (Z.pos (digits2_pos p)) with (Zdigits2 (Z.pos p)).
           rewrite (Zdigits2_unique (Z.pos p) prec); [lia| |lia].
           rewrite <- Ep. lia.
        -- now apply Z.leb_le.
      * replace (f + 1 - f) with 1 by lia. simpl (2 ^ 1). lia.
Qed.

Lemma round_result_valid sx q f r :
  round_result prec emax sx q f r -> valid_binary prec emax r = true.
Proof. destruct r; simpl; tauto. Qed.

(** A mantissa that is already on the format's exponent, possibly after
    [k] exact shifts, is returned as it is. *)
Lemma binary_round_aux_exact (sx : bool) (m : positive) (e k : Z) :
  bounded prec emax m e = true -> 0 <= k ->
  binary_round_aux prec emax sx (Zpos m * 2 ^ k) (e - k) loc_Exact
  = S754_finite sx m e.
Proof.
  intros Hb Hk. apply andb_true_iff in Hb as [Hc Hmax].
  apply Z.eqb_eq in Hc. apply Z.leb_le in Hmax.
  change (Z.pos (digits2_pos m)) with (Zdigits2 (Z.pos m)) in Hc.
  assert (Hd : Zdigits2 (Zpos m * 2 ^ k) + (e - k) = Zdigits2 (Zpos m) + e)
    by (rewrite Zdigits2_shiftl; lia).
  unfold binary_round_aux.
  assert (E1 : shr_fexp prec emax (Zpos m * 2 ^ k) (e - k) loc_Exact
               = (Build_shr_record (Zpos m) false false, e)).
  { unfold shr_fexp. rewrite Hd, Hc.
    replace (e - (e - k)) with k by lia.
    destruct k as [|k|k]; [|clear Hk|lia].
    - simpl. f_equal; [f_equal|]; lia.
    - simpl shr. rewrite iter_pos_nat.
      rewrite <- (positive_nat_Z k) at 1.
      change (shr_record_of_loc ?a loc_Exact) with (Build_shr_record a false false).
      rewrite iter_shr_1_exact by lia. f_equal. lia. }
  rewrite E1. simpl loc_of_shr_record. simpl round_nearest_even.
  rewrite shr_fexp_nop by lia. simpl.
  apply Z.leb_le in Hmax. now rewrite Hmax.
Qed.

Lemma shl_align_spec (mx : positive) (ex ex' : Z) :
  snd (shl_align mx ex ex') = Z.min ex ex' /\
  Zpos (fst (shl_align mx ex ex')) = Zpos mx * 2 ^ (ex - Z.min ex ex').
Proof.
  unfold shl_align. destruct (ex' - ex) as [|d|d] eqn:Ed; simpl.
  - rewrite Z.min_l by lia. rewrite Z.sub_diag. simpl. lia.
  - rewrite Z.min_l by lia. rewrite Z.sub_diag. simpl. lia.
  - rewrite Z.min_r by lia. split; [reflexivity|].
    rewrite Pos_iter_xO. f_equal. f_equal. lia.
Qed.

(** [binary_round] rounds [mx * 2 ^ ex] on the exponent of the format. *)
Lemma binary_round_spec (sx : bool) (mx : positive) (ex : Z) :
  let f := fexp prec emax (Zdigits2 (Zpos mx) + ex) in
  round_result prec emax sx (Zpos mx * 2 ^ (ex - Z.min ex f) / 2 ^ (f - Z.min ex f)) f
               (binary_round prec emax sx mx ex).
Proof.
  intros f. unfold binary_round.
  change (Z.pos (digits2_pos mx)) with (Zdigits2 (Z.pos mx)). fold f.
  destruct (shl_align_spec mx ex f) as [E1 E2].
  destruct (shl_align mx ex f) as [mz ez]. simpl in E1, E2. subst ez.
  assert (Hd : Zdigits2 (Zpos mz) + Z.min ex f = Zdigits2 (Zpos mx) + ex).
  { rewrite E2, Zdigits2_shiftl; lia. }
  pose proof (binary_round_aux_spec sx (Zpos mz) (Z.min ex f) loc_Exact) as H.
  rewrite Hd in H. fold f in H. rewrite <- E2. apply H; lia.
Qed.

(** Every result of a conversion to the format is a valid number of the
    format, or a NaN when the operand is. *)
Lemma convert_valid (x : spec_float) :
  valid_binary prec emax (convert prec emax x) = true.
Proof.
  destruct x as [s|s| |s m e]; try reflexivity.
  unfold convert, binary_normalize.
  destruct s; simpl cond_Zopp; cbv iota;
    eapply round_result_valid, binary_round_spec.
Qed.

Lemma bounded_inv (m : positive) (e : Z) :
  bounded prec emax m e = true ->
  Zdigits2 (Zpos m) <= prec /\ emin prec emax <= e /\
  (emin prec emax < e -> Zdigits2 (Zpos m) = prec) /\ e <= emax - prec.
Proof.
  intros Hb. apply andb_true_iff in Hb as [Hc Hmax].
  apply Z.eqb_eq in Hc. apply Z.leb_le in Hmax.
  change (Z.pos (digits2_pos m)) with (Zdigits2 (Z.pos m)) in Hc.
  rewrite fexp_eq in Hc. lia.
Qed.

(** On numbers of the format, [SFcompare] is the order of the values. *)
Lemma SFcompare_bounded (m1 : positive) (e1 : Z) (m2 : positive) (e2 c : Z) :
  bounded prec emax m1 e1 = true -> bounded prec emax m2 e2 = true ->
  c <= e1 -> c <= e2 ->
  SFcompare (S754_finite false m1 e1) (S754_finite false m2 e2)
  = Some (Zpos m1 * 2 ^ (e1 - c) ?= Zpos m2 * 2 ^ (e2 - c)).
Proof.
  intros B1 B2 C1 C2.
  apply bounded_inv in B1 as (D1 & M1 & F1 & _).
  apply bounded_inv in B2 as (D2 & M2 & F2 & _).
  pose proof (Zdigits2_bounds (Zpos m1) ltac:(lia)) as [L1 U1].
  pose proof (Zdigits2_bounds (Zpos m2) ltac:(lia)) as [L2 U2].
  assert (P1 : 0 < 2 ^ (e1 - c)) by (apply Z.pow_pos_nonneg; lia).
  assert (P2 : 0 < 2 ^ (e2 - c)) by (apply Z.pow_pos_nonneg; lia).
  assert (Hup : forall m, Zdigits2 m <= prec -> m < 2 ^ Zdigits2 m ->
                          m < 2 ^ prec).
  { intros m Hd Hm. eapply Z.lt_le_trans; [exact Hm|].
    apply Z.pow_le_mono_r; lia. }
  simpl SFcompare. f_equal. destruct (Z.compare_spec e1 e2) as [He|He|He].
  - subst e2. rewrite <- Zmult_compare_compat_r by lia. reflexivity.
  - symmetry. apply Z.compare_lt_iff.
    rewrite F2 in L2 by lia.
    apply Z.lt_le_trans with (2 ^ prec * 2 ^ (e1 - c)).
    + apply Z.mul_lt_mono_pos_r; auto.
    + apply Z.le_trans with (2 ^ (prec - 1) * 2 ^ (e2 - c)).
      * rewrite <- !pow2_split by lia. apply Z.pow_le_mono_r; lia.
      * apply Z.mul_le_mono_nonneg_r; lia.
  - symmetry. apply Z.compare_gt_iff.
    rewrite F1 in L1 by lia.
    apply Z.lt_le_trans with (2 ^ prec * 2 ^ (e2 - c)).
    + apply Z.mul_lt_mono_pos_r; auto.
    + apply Z.le_trans with (2 ^ (prec - 1) * 2 ^ (e1 - c)).
      * rewrite <- !pow2_split by lia. apply Z.pow_le_mono_r; lia.
      * apply Z.mul_le_mono_nonneg_r; lia.
Qed.

Lemma round_q_full (mx : positive) (ex : Z) :
  emin prec emax < fexp prec emax (Zdigits2 (Zpos mx) + ex) ->
  2 ^ (prec - 1) <= round_q prec emax mx ex.
Proof.
  intros Hf. unfold round_q.
  set (f := fexp prec emax (Zdigits2 (Zpos mx) + ex)) in *.
  assert (Ef : f = Zdigits2 (Zpos mx) + ex - prec)
    by (subst f; rewrite fexp_eq in *; lia).
  pose proof (Zdigits2_bounds (Zpos mx) ltac:(lia)) as [L U].
  pose proof (Zdigits2_pos (Zpos mx) ltac:(lia)) as Dp.
  assert (P : 0 < 2 ^ (f - Z.min ex f)) by (apply Z.pow_pos_nonneg; lia).
  apply Z.div_le_lower_bound; trivial.
  apply Z.le_trans with (2 ^ (Zdigits2 (Zpos mx) - 1) * 2 ^ (ex - Z.min ex f)).
  - rewrite <- !pow2_split by lia. apply Z.pow_le_mono_r; lia.
  - apply Z.mul_le_mono_nonneg_r; [apply Z.pow_nonneg|]; lia.
Qed.

Lemma round_q_ge (mx : positive) (ex a ea c : Z) :
  let f := fexp prec emax (Zdigits2 (Zpos mx) + ex) in
  f <= ea -> c <= ex -> c <= ea ->
  a * 2 ^ (ea - c) <= Zpos mx * 2 ^ (ex - c) ->
  a * 2 ^ (ea - f) <= round_q prec emax mx ex.
Proof.
  intros f Hfa C1 C2 H. unfold round_q. fold f.
  assert (P : 0 < 2 ^ (f - Z.min ex f)) by (apply Z.pow_pos_nonneg; lia).
  apply Z.div_le_lower_bound; trivial.
  rewrite Z.mul_comm, <- Z.mul_assoc, <- pow2_split by lia.
  replace (ea - f + (f - Z.min ex f)) with (ea - Z.min ex f) by lia.
  apply (dyadic_le_scale a ea (Zpos mx) ex c (Z.min ex f)); lia.
Qed.

(** Rounding is above every number of the format below the operand. *)
Lemma binary_round_ge (mg : positive) (eg : Z) (my : positive) (ey c : Z) :
  bounded prec emax mg eg = true -> c <= eg -> c <= ey ->
  Zpos mg * 2 ^ (eg - c) <= Zpos my * 2 ^ (ey - c) ->
  SFleb (S754_finite false mg eg) (binary_round prec emax false my ey) = true.
Proof.
  intros Bg C1 C2 Hle.
  pose proof (binary_round_spec false my ey) as Hr. cbv zeta in Hr.
  fold (round_q prec emax my ey) in Hr.
  set (f := fexp prec emax (Zdigits2 (Zpos my) + ey)) in *.
  set (q := round_q prec emax my ey) in *.
  pose proof (bounded_inv _ _ Bg) as (Dg & Mg & Fg & _).
  pose proof (Zdigits2_bounds (Zpos mg) ltac:(lia)) as [Lg Ug].
  assert (Ug' : Zpos mg < 2 ^ prec).
  { eapply Z.lt_le_trans; [exact Ug|]. apply Z.pow_le_mono_r; lia. }
  assert (Hfe : emin prec emax <= f) by (subst f; rewrite fexp_eq; lia).
  assert (Hq : (f <= eg -> Zpos mg * 2 ^ (eg - f) <= q) /\
               (eg < f -> 2 ^ (prec - 1) <= q)).
  { split; intros He.
    - apply (round_q_ge my ey (Zpos mg) eg c); trivial.
    - apply round_q_full. fold f. lia. }
  destruct Hq as [Hq1 Hq2].
  assert (Ppos : 0 < 2 ^ (prec - 1)) by (apply Z.pow_pos_nonneg; lia).
  assert (E2 : 2 ^ prec = 2 * 2 ^ (prec - 1)).
  { replace prec with (1 + (prec - 1)) at 1 by lia.
    now rewrite pow2_split by lia. }
  destruct (binary_round prec emax false my ey) as [s|s| |s m e];
    simpl in Hr.
  - (* zero *) destruct Hr as [_ Hq0]. exfalso.
    destruct (Z_le_gt_dec f eg) as [He|He].
    + specialize (Hq1 He).
      assert (0 < 2 ^ (eg - f)) by (apply Z.pow_pos_nonneg; lia). nia.
    + specialize (Hq2 ltac:(lia)). lia.
  - subst s. reflexivity.
  - destruct Hr.
  - destruct Hr as (-> & Bm & Hfe' & Hlo & _).
    unfold SFleb.
    rewrite (SFcompare_bounded mg eg m e (Z.min eg f)) by (trivial; lia).
    destruct (Z.compare_spec (Zpos mg * 2 ^ (eg - Z.min eg f))
                             (Zpos m * 2 ^ (e - Z.min eg f))) as [H|H|H];
      trivial. exfalso.
    destruct (Z_le_gt_dec f eg) as [He|He].
    + specialize (Hq1 He). rewrite Z.min_r in H by lia. lia.
    + specialize (Hq2 ltac:(lia)). rewrite Z.min_l in H by lia.
      rewrite Z.sub_diag in H. simpl (2 ^ 0) in H.
      replace (e - eg) with ((e - f) + (f - eg)) in H by lia.
      rewrite pow2_split, Z.mul_assoc in H by lia.
      assert (2 <= 2 ^ (f - eg)).
      { change 2 with (2 ^ 1) at 1. apply Z.pow_le_mono_r; lia. }
      nia.
Qed.

(** The quotient of two finite numbers is rounded like any other
    result. *)
Lemma SFdiv_finite_spec (sx : bool) (mx : positive) (ex : Z)
      (sy : bool) (my : positive) (ey : Z) :
  exists q f,
    round_result prec emax (xorb sx sy) q f
      (SFdiv prec emax (S754_finite sx mx ex) (S754_finite sy my ey)).
Proof.
  unfold SFdiv, SFdiv_core_binary.
  set (e' := Z.min (fexp prec emax (Zdigits2 (Zpos mx) + ex
                                    - (Zdigits2 (Zpos my) + ey)))
                   (ex - ey)).
  set (s := ex - ey - e').
  assert (Hs : 0 <= s) by (subst s e'; lia).
  set (m' := match s with
             | Z0 => Zpos mx
             | Zpos _ => Z.shiftl (Zpos mx) s
             | Zneg _ => 0
             end).
  assert (Hm' : m' = Zpos mx * 2 ^ s).
  { subst m'. destruct s as [|p|p] eqn:Es; [simpl; lia| |lia].
    now rewrite Z.shiftl_mul_pow2 by lia. }
  assert (P : 0 < 2 ^ s) by (apply Z.pow_pos_nonneg; lia).
  destruct (Z.div_eucl m' (Zpos my)) as [q r] eqn:E.
  assert (Hq : q = m' / Zpos my) by (unfold Z.div; now rewrite E).
  exists (q / 2 ^ (fexp prec emax (Zdigits2 q + e') - e')),
         (fexp prec emax (Zdigits2 q + e')).
  apply binary_round_aux_spec.
  - subst q. apply Z.div_pos; lia.
  - assert (Hd : Zdigits2 (Zpos mx) + s - Zdigits2 (Zpos my) <= Zdigits2 q).
    { subst q. rewrite <- (Zdigits2_shiftl (Zpos mx) s), <- Hm' by lia.
      apply Zdigits2_div; lia. }
    clear Hm' P E Hq. subst s e'. rewrite !fexp_eq in *. lia.
Qed.

(** A number with at most [prec] digits and in the range of the format is
    converted exactly. *)
Lemma binary_round_widen (sx : bool) (m : positive) (e : Z) :
  let f := fexp prec emax (Zdigits2 (Zpos m) + e) in
  f <= e -> f <= emax - prec ->
  exists p, binary_round prec emax sx m e = S754_finite sx p f /\
            Zpos p = Zpos m * 2 ^ (e - f) /\
            bounded prec emax p f = true.
Proof.
  intros f Hfe Hmax. unfold binary_round.
  change (Z.pos (digits2_pos m)) with (Zdigits2 (Z.pos m)). fold f.
  destruct (shl_align_spec m e f) as [E1 E2].
  destruct (shl_align m e f) as [mz ez]. simpl in E1, E2.
  rewrite Z.min_r in E1, E2 by lia. subst ez.
  assert (Hb : bounded prec emax mz f = true).
  { unfold bounded, canonical_mantissa. apply andb_true_iff. split.
    - apply Z.eqb_eq.
      change (Z.pos (digits2_pos mz)) with (Zdigits2 (Z.pos mz)).
      rewrite E2, Zdigits2_shiftl by lia.
      replace (Zdigits2 (Z.pos m) + (e - f) + f)
        with (Zdigits2 (Z.pos m) + e) by lia. reflexivity.
    - now apply Z.leb_le. }
  exists mz. split; [|split; trivial].
  pose proof (binary_round_aux_exact sx mz f 0 Hb ltac:(lia)) as H.
  rewrite Z.sub_0_r in H. simpl (2 ^ 0) in H. now rewrite Z.mul_1_r in H.
Qed.

(** A number of the format written with [k] more binary digits is
    converted back to it. *)
Lemma binary_round_narrow (sx : bool) (m0 : positive) (e0 : Z)
      (m : positive) (k : Z) :
  bounded prec emax m0 e0 = true -> 0 <= k -> Zpos m = Zpos m0 * 2 ^ k ->
  binary_round prec emax sx m (e0 - k) = S754_finite sx m0 e0.
Proof.
  intros Hb Hk Hm. unfold binary_round.
  change (Z.pos (digits2_pos m)) with (Zdigits2 (Z.pos m)).
  pose proof Hb as Hb'. apply andb_true_iff in Hb' as [Hc _].
  apply Z.eqb_eq in Hc.
  change (Z.pos (digits2_pos m0)) with (Zdigits2 (Z.pos m0)) in Hc.
  rewrite Hm, Zdigits2_shiftl by lia.
  replace (Zdigits2 (Z.pos m0) + k + (e0 - k))
    with (Zdigits2 (Z.pos m0) + e0) by lia.
  rewrite Hc. unfold shl_align.
  replace (e0 - (e0 - k)) with k by lia.
  destruct k as [|k|k]; [| |lia].
  - pose proof (binary_round_aux_exact sx m0 e0 0 Hb ltac:(lia)) as H.
    simpl (2 ^ 0) in H, Hm. rewrite Hm. exact H.
  - rewrite Hm. now apply binary_round_aux_exact.
Qed.

End rounding.

(** ** The two conversions between [float] and [double] *)

Lemma F32_prec_pos : 0 < F32.prec.
Proof. unfold F32.prec. lia. Qed.

Lemma F64_prec_pos : 0 < F64.prec.
Proof. unfold F64.prec. lia. Qed.

Lemma float_to_double_finite (s : bool) (m : positive) (e : Z) :
  bounded F32.prec F32.emax m e = true ->
  exists p k, k = 53 - Zdigits2 (Zpos m) /\ 0 <= k /\
    float_to_double (S754_finite s m e) = S754_finite s p (e - k) /\
    Zpos p = Zpos m * 2 ^ k /\
    bounded F64.prec F64.emax p (e - k) = true.
Proof.
  intros Hb.
  pose proof (bounded_inv F32.prec F32.emax m e Hb) as (Hd & He & _ & Hmax).
  pose proof (Zdigits2_pos (Zpos m) ltac:(lia)) as Dp.
  unfold F32.prec, F32.emax in *. change (emin 24 128) with (-149) in *.
  set (f := fexp F64.prec F64.emax (Zdigits2 (Zpos m) + e)).
  assert (Ef : f = Zdigits2 (Zpos m) + e - 53).
  { subst f. rewrite fexp_eq. unfold F64.prec, F64.emax.
    change (emin 53 1024) with (-1074). lia. }
  destruct (binary_round_widen F64.prec F64.emax s m e)
    as (p & E & Hp & Bp); fold f; try (unfold F64.prec, F64.emax; lia).
  exists p, (e - f). replace (e - (e - f)) with f by lia.
  repeat split; trivial; try lia.
  unfold float_to_double, convert, binary_normalize.
  destruct s; simpl cond_Zopp; cbv iota; exact E.
Qed.

Lemma double_to_float_to_double (s : bool) (m : positive) (e : Z) :
  bounded F32.prec F32.emax m e = true ->
  double_to_float (float_to_double (S754_finite s m e)) = S754_finite s m e.
Proof.
  intros Hb.
  destruct (float_to_double_finite s m e Hb) as (p & k & _ & Hk & E & Hp & _).
  rewrite E. unfold double_to_float, convert, binary_normalize.
  destruct s; simpl cond_Zopp; cbv iota;
    now apply binary_round_narrow.
Qed.

Lemma double_to_float_valid (x : spec_float) :
  F32.valid (double_to_float x) = true.
Proof. apply (convert_valid F32.prec F32.emax F32_prec_pos). Qed.

Lemma float_to_double_valid (x : spec_float) :
  F64.valid (float_to_double x) = true.
Proof. apply (convert_valid F64.prec F64.emax F64_prec_pos). Qed.

Lemma convert_nonneg (prec emax : Z) (x : spec_float) :
  0 < prec -> SFnonneg x -> SFnonneg (convert prec emax x).
Proof.
  intros Hp. destruct x as [s|s| |s m e]; simpl; trivial.
  destruct s; [contradiction|]. intros _.
  change (SFnonneg (binary_round prec emax false m e)).
  pose proof (binary_round_spec prec emax Hp false m e) as H. cbv zeta in H.
  destruct (binary_round prec emax false m e) as [s|s| |s m' e'];
    simpl in *.
  - destruct H as [-> _]. exact I.
  - subst s. exact I.
  - exact H.
  - destruct H as [-> _]. exact I.
Qed.

Lemma SFleb_refl (x : spec_float) : x <> S754_nan -> SFleb x x = true.
Proof.
  destruct x as [s|s| |s m e]; try easy; intros _; unfold SFleb; simpl.
  - now destruct s.
  - destruct s; rewrite Z.compare_refl, Pcompare_refl; reflexivity.
Qed.

(** [1.0 / peak] for a [peak] above 1. *)
Lemma inverse_peak_cases (peak : spec_float) :
  SFltb (F32.of_int 1) peak = true ->
  let b := F64.div (F64.of_int 1) (float_to_double peak) in
  SFnonneg b /\ F64.valid b = true.
Proof.
  intros Hp b.
  assert (Hpk : SFnonneg (float_to_double peak)).
  { apply convert_nonneg; [apply F64_prec_pos|].
    destruct peak as [s|[]| |[] m e]; simpl; trivial; discriminate. }
  subst b. destruct (float_to_double peak) as [[]|[]| |[] m e];
    simpl in Hpk; try contradiction.
  - split; reflexivity.
  - split; reflexivity.
  - change (F64.of_int 1) with (S754_finite false 4503599627370496 (-52)).
    destruct (SFdiv_finite_spec F64.prec F64.emax F64_prec_pos
                false 4503599627370496 (-52) false m e) as (q & f & H).
    unfold F64.div, F64.valid.
    destruct (SFdiv F64.prec F64.emax _ _) as [s'|s'| |s' m' e'];
      simpl in *.
    + destruct H as [-> _]. auto.
    + subst s'. auto.
    + contradiction.
    + destruct H as (-> & Hb & _). auto.
Qed.

(** The clipping prevention of line 91: the [float] it stores is at most
    [1.0 / peak] as a [float]. *)
Lemma clip_limit_le (z peak : spec_float) :
  double_to_float z <> S754_nan ->
  SFltb (F32.of_int 1) peak = true ->
  let b := F64.div (F64.of_int 1) (float_to_double peak) in
  SFleb (double_to_float
           (MPMIN SFltb (float_to_double (double_to_float z)) b))
        (double_to_float b) = true.
Proof.
  intros Hnan Hp b.
  destruct (inverse_peak_cases peak Hp) as [Hb Vb]. fold b in Hb, Vb.
  assert (Htb : SFnonneg (double_to_float b))
    by (apply convert_nonneg; [apply F32_prec_pos|trivial]).
  assert (Htb' : double_to_float b <> S754_nan)
    by (intros E; now rewrite E in Htb).
  pose proof (double_to_float_valid z) as Vg.
  set (g := double_to_float z) in *.
  unfold MPMIN. destruct (SFltb b (float_to_double g)) eqn:Hlt.
  { now apply SFleb_refl. }
  destruct g as [s|s| |s mg eg]; [| |easy|].
  - (* zero *)
    change (double_to_float (float_to_double (S754_zero s))) with (S754_zero s).
    destruct (double_to_float b) as [s'|[]| |[] m' e']; simpl in Htb;
      try contradiction; reflexivity.
  - (* infinity *)
    change (double_to_float (float_to_double (S754_infinity s)))
      with (S754_infinity s).
    destruct s.
    + destruct (double_to_float b) as [s'|[]| |[] m' e']; simpl in Htb;
        try contradiction; reflexivity.
    + change (float_to_double (S754_infinity false))
        with (S754_infinity false) in Hlt.
      destruct b as [s'|[]| |[] m' e']; simpl in Hb; try contradiction;
        try discriminate Hlt. reflexivity.
  - (* finite *)
    simpl in Vg. rewrite double_to_float_to_double by exact Vg.
    destruct s.
    + destruct (double_to_float b) as [s'|[]| |[] m' e']; simpl in Htb;
        try contradiction; reflexivity.
    + destruct (float_to_double_finite false mg eg Vg)
        as (p & k & _ & Hk & E & Hpm & Bp).
      rewrite E in Hlt.
      destruct b as [s'|[]| |[] mb eb] eqn:Eb; simpl in Hb;
        try contradiction; try discriminate Hlt.
      * reflexivity.
      * simpl in Vb.
        unfold SFltb in Hlt.
        rewrite (SFcompare_bounded F64.prec F64.emax F64_prec_pos
                   mb eb p (eg - k) (Z.min eb (eg - k))) in Hlt
          by (trivial; lia).
        assert (Hle : Zpos p * 2 ^ (eg - k - Z.min eb (eg - k))
                      <= Zpos mb * 2 ^ (eb - Z.min eb (eg - k))).
        { destruct (Z.compare_spec (Zpos mb * 2 ^ (eb - Z.min eb (eg - k)))
                     (Zpos p * 2 ^ (eg - k - Z.min eb (eg - k))));
            try discriminate Hlt; lia. }
        unfold double_to_float, convert, binary_normalize. simpl cond_Zopp.
        cbv iota.
        apply (binary_round_ge F32.prec F32.emax F32_prec_pos
                 mg eg mb eb (Z.min eb (eg - k))); trivial; try lia.
        rewrite Hpm in Hle.
        replace (eg - Z.min eb (eg - k))
          with (k + (eg - k - Z.min eb (eg - k))) by lia.
        rewrite pow2_split, Z.mul_assoc by lia. exact Hle.
Qed.

(** ** Literals *)

(** [0.00001] is within half a unit in the last place of 10^-5. *)
Example c_0_00001_nearest :
  c_0_00001 = S754_finite false 5902958103587057 (-69) /\
  2 * Z.abs (5902958103587057 * 10 ^ 5 - 2 ^ 69) <= 10 ^ 5.
Proof. split; [reflexivity|]. vm_compute. discriminate. Qed.

(** ** [256.0 * level] and its conversion to [int] *)

Example double_to_int_trunc :
  double_to_int (F64.div (F64.of_int 7) (F64.of_int 2)) = Some 3 /\
  double_to_int (F64.div (F64.of_int (-7)) (F64.of_int 2)) = Some (-3).
Proof. split; vm_compute; reflexivity. Qed.


(** The product by [256.0] is exact: it moves the exponent. *)
Lemma mul_256_finite (s : bool) (m : positive) (e : Z) :
  bounded F32.prec F32.emax m e = true ->
  exists p k, 0 <= k /\ Zpos p = Zpos m * 2 ^ k /\
    F64.mul (F64.of_int 256) (float_to_double (S754_finite s m e))
    = S754_finite s p (e - k + 8).
Proof.
  intros Hb.
  pose proof (bounded_inv F32.prec F32.emax m e Hb) as (Hd & He & _ & Hmax).
  pose proof (Zdigits2_pos (Zpos m) ltac:(lia)) as Dp.
  unfold F32.prec, F32.emax in *. change (emin 24 128) with (-149) in *.
  destruct (float_to_double_finite s m e Hb) as (p & k & Ek & Hk & E & Hp & Bp).
  exists p, k. split; [trivial|]. split; [trivial|]. rewrite E.
  change (F64.of_int 256) with (S754_finite false 4503599627370496 (-44)).
  unfold F64.mul, SFmul. change (xorb false s) with s.
  assert (Bp' : bounded F64.prec F64.emax p (e - k + 8) = true).
  { pose proof (bounded_inv _ _ _ _ Bp) as (_ & _ & Full & _).
    unfold F64.prec, F64.emax in *. change (emin 53 1024) with (-1074) in *.
    unfold bounded, canonical_mantissa. apply andb_true_iff. split.
    - apply Z.eqb_eq. rewrite fexp_eq.
      change (Z.pos (digits2_pos p)) with (Zdigits2 (Z.pos p)).
      rewrite Full by lia. change (emin 53 1024) with (-1074). lia.
    - apply Z.leb_le. lia. }
  pose proof (binary_round_aux_exact F64.prec F64.emax s p (e - k + 8) 52
                Bp' ltac:(lia)) as H.
  replace (-44 + (e - k)) with (e - k + 8 - 52) by lia.
  rewrite Pos2Z.inj_mul, Z.mul_comm. exact H.
Qed.

Lemma double_to_int_mul_256 (s : bool) (m : positive) (e : Z) :
  bounded F32.prec F32.emax m e = true ->
  double_to_int (F64.mul (F64.of_int 256)
                         (float_to_double (S754_finite s m e)))
  = let z := cond_Zopp s (Z.shiftl (Zpos m) (e + 8)) in
    if (INT_MIN <=? z) && (z <=? INT_MAX) then Some z else None.
Proof.
  intros Hb. destruct (mul_256_finite s m e Hb) as (p & k & Hk & Hp & E).
  rewrite E. unfold double_to_int.
  rewrite Hp, <- Z.shiftl_mul_pow2, Z.shiftl_shiftl by lia.
  replace (k + (e - k + 8)) with (e + 8) by lia. reflexivity.
Qed.

(** ** Comparisons *)

Lemma SFcompare_antisym (x y : spec_float) :
  SFcompare y x = match SFcompare x y with
                  | Some c => Some (CompOpp c)
                  | None => None
                  end.
Proof.
  destruct x as [sx|sx| |sx mx ex], y as [sy|sy| |sy my ey]; simpl;
    try reflexivity;
    try (destruct sx; reflexivity); try (destruct sy; reflexivity);
    try (destruct sx, sy; reflexivity).
  destruct sx, sy; try reflexivity;
    rewrite (Z.compare_antisym ex ey), (ZC4 my mx);
    destruct (ex ?= ey); simpl; try reflexivity;
    now rewrite ?CompOpp_involutive.
Qed.

Lemma SFltb_false_SFleb (x y : spec_float) :
  x <> S754_nan -> y <> S754_nan -> SFltb x y = false -> SFleb y x = true.
Proof.
  intros Hx Hy. unfold SFltb, SFleb. rewrite (SFcompare_antisym x y).
  destruct (SFcompare x y) as [[]|] eqn:E; simpl; try easy.
  destruct x, y; simpl in E; try discriminate; congruence.
Qed.


(** ** Integer samples *)

Lemma wrap_small (w x : Z) :
  0 < w -> - 2 ^ (w - 1) <= x < 2 ^ (w - 1) -> wrap w x = x.
Proof.
  intros Hw Hx. unfold wrap.
  assert (E : 2 ^ w = 2 * 2 ^ (w - 1)).
  { replace w with (1 + (w - 1)) at 1 by lia. now rewrite pow2_split by lia. }
  rewrite Z.mod_small; lia.
Qed.

Lemma MPCLAMP_Z (x lo hi : Z) :
  lo <= hi -> MPCLAMP Z.ltb x lo hi = Z.max lo (Z.min hi x).
Proof.
  intros H. unfold MPCLAMP.
  destruct (Z.ltb_spec x lo); [lia|]. destruct (Z.ltb_spec hi x); lia.
Qed.

Lemma scale_s16_app (vol : Z) (n : nat) (pre a : list Z) :
  (n <= length a)%nat ->
  scale_s16 vol n (length pre) (pre ++ a)
  = Some (pre
          ++ map (fun x => wrap 16 (MPCLAMP Z.ltb (Z.shiftr (int_mul x vol) 8)
                                            SHRT_MIN SHRT_MAX))
                 (take n a)
          ++ drop n a).
Proof.
  revert pre a. induction n as [|n IH]; intros pre a Hn.
  - simpl. now rewrite drop_0.
  - destruct a as [|x a]; [simpl in Hn; lia|]. simpl in Hn.
    simpl scale_s16. rewrite list_lookup_middle by reflexivity.
    rewrite insert_app_r_alt, Nat.sub_diag by lia. simpl.
    rewrite (cons_middle _ pre a), app_assoc.
    replace (S (length pre)) with (length (pre ++ [wrap 16
      (MPCLAMP Z.ltb (Z.shiftr (int_mul x vol) 8) SHRT_MIN SHRT_MAX)]))
      by (rewrite length_app; simpl; lia).
    rewrite IH by lia. now rewrite <- app_assoc.
Qed.

Lemma scale_s16_short (vol : Z) (n i : nat) (a : list Z) :
  (length a < i + n)%nat -> (i <= length a)%nat ->
  scale_s16 vol n i a = None.
Proof.
  revert i a. induction n as [|n IH]; intros i a Hn Hi; [lia|].
  simpl. destruct (a !! i) eqn:E.
  - apply IH; rewrite length_insert; [lia|].
    apply lookup_lt_Some in E. lia.
  - reflexivity.
Qed.
(** ** Properties *)

Section properties.

Variable pow : spec_float -> spec_float -> spec_float.
Variable af_softclip : spec_float -> spec_float.
Variable af_test_output : af_instance -> mp_audio -> Z * mp_audio.

(** ISO C (F.10.4.4): [pow(x, +-0)] returns 1 for any [x], even a NaN. *)
Hypothesis pow_zero : forall x s, pow x (S754_zero s) = F64.of_int 1.

Lemma from_dB_20_zero s : from_dB_20 pow (S754_zero s) = F32.of_int 1.
Proof.
  destruct s.
  - change (from_dB_20 pow (S754_zero true))
      with (double_to_float (pow (F64.of_int 10) (S754_zero true))).
    now rewrite pow_zero.
  - change (from_dB_20 pow (S754_zero false))
      with (double_to_float (pow (F64.of_int 10) (S754_zero false))).
    now rewrite pow_zero.
Qed.

(** *** The control handler *)

Ltac case_matches :=
  repeat (match goal with
          | |- context [match ?x with _ => _ end] => destruct x
          end; simpl).

Lemma reinit_rgain_level s rg : level (reinit_rgain pow s rg) = level s.
Proof.
  unfold reinit_rgain.
  case_matches; reflexivity.
Qed.

Lemma reinit_rgain_detach s rg : detach (reinit_rgain pow s rg) = detach s.
Proof.
  unfold reinit_rgain.
  case_matches; reflexivity.
Qed.

Lemma reinit_rgain_cfg_volume s rg v :
  rgain (reinit_rgain pow (set_cfg_volume s v) rg)
  = rgain (reinit_rgain pow s rg).
Proof.
  unfold reinit_rgain. simpl.
  case_matches; reflexivity.
Qed.

Lemma detach_test_cfg_volume s v :
  detach_test (set_cfg_volume s v) = detach_test s.
Proof. reflexivity. Qed.

Lemma detach_test_unity s :
  level s = F32.of_int 1 -> rgain s = F32.of_int 1 -> detach s <> 0 ->
  detach_test s = true.
Proof.
  intros Hl Hr Hd. unfold detach_test. rewrite Hl, Hr.
  apply Z.eqb_neq in Hd. rewrite Hd. reflexivity.
Qed.

Lemma control_reinit_ret af in_ :
  let s' := reinit_rgain pow (af_priv af) (af_replaygain_data af) in
  let af' := set_priv (set_data af (reinit_format (af_priv af) (af_data af) in_)) s' in
  c_ret (control pow af_test_output af (AF_CONTROL_REINIT in_))
  = if detach_test s' then AF_DETACH else fst (af_test_output af' in_).
Proof.
  simpl. destruct (detach_test _); [reflexivity|].
  now destruct (af_test_output _ _).
Qed.

Lemma control_reinit_af af in_ :
  c_af (control pow af_test_output af (AF_CONTROL_REINIT in_))
  = set_priv (set_data af (reinit_format (af_priv af) (af_data af) in_))
             (reinit_rgain pow (af_priv af) (af_replaygain_data af)).
Proof.
  simpl. destruct (detach_test _); [reflexivity|].
  now destruct (af_test_output _ _).
Qed.

(** *** Claims on the control handler *)

(** C1. The detach decision of a reinitialization is true exactly when
    [detach] is set and [|level * rgain - 1.0| < 0.00001], with the
    replaygain level just resolved: [control] then returns [AF_DETACH], and
    otherwise what [af_test_output] returns.  [cfg_volume] plays no role:
    with [level = 1.0], resolved [rgain = 1.0] and [detach] set the result
    is [AF_DETACH] for every value [v] of [cfg_volume]. *)
Theorem C1_detach_decision (af : af_instance) (in_ : mp_audio) (v : spec_float) :
  let s' := reinit_rgain pow (af_priv af) (af_replaygain_data af) in
  let r := control pow af_test_output af (AF_CONTROL_REINIT in_) in
  (detach_test s' = true <->
     detach (af_priv af) <> 0 /\
     SFltb (SFabs (F64.sub (float_to_double (F32.mul (level (af_priv af)) (rgain s')))
                           (F64.of_int 1)))
           c_0_00001 = true) /\
  (detach_test s' = true -> c_ret r = AF_DETACH) /\
  (detach_test s' = false -> c_ret r = fst (af_test_output (c_af r) in_)) /\
  (level (af_priv af) = F32.of_int 1 -> rgain s' = F32.of_int 1 ->
   detach (af_priv af) <> 0 ->
   c_ret (control pow af_test_output
                  (set_priv af (set_cfg_volume (af_priv af) v))
                  (AF_CONTROL_REINIT in_)) = AF_DETACH).
Proof.
  intros s' r.
  assert (Hiff : detach_test s' = true <->
     detach (af_priv af) <> 0 /\
     SFltb (SFabs (F64.sub (float_to_double (F32.mul (level (af_priv af)) (rgain s')))
                           (F64.of_int 1)))
           c_0_00001 = true).
  { unfold detach_test. subst s'.
    rewrite reinit_rgain_detach, reinit_rgain_level, andb_true_iff,
      negb_true_iff, Z.eqb_neq. reflexivity. }
  split; [exact Hiff|]. split; [|split].
  - intros Ht. subst r. rewrite control_reinit_ret. fold s'. now rewrite Ht.
  - intros Ht. subst r. rewrite control_reinit_ret, control_reinit_af.
    fold s'. now rewrite Ht.
  - intros Hl Hr Hd. rewrite control_reinit_ret. simpl af_priv.
    simpl af_replaygain_data. rewrite detach_test_unity; trivial.
    + now rewrite reinit_rgain_level.
    + now rewrite reinit_rgain_cfg_volume.
    + now rewrite reinit_rgain_detach.
Qed.

(** C10. Setting the volume to [v] and then getting it returns [v] itself;
    the stored [level] is [pow(v, 3)], converted to [float]. *)
Theorem C10_set_get_volume (af : af_instance) (v old : spec_float) :
  let r1 := control pow af_test_output af (AF_CONTROL_SET_VOLUME v) in
  let r2 := control pow af_test_output (c_af r1) (AF_CONTROL_GET_VOLUME old) in
  c_ret r1 = AF_OK /\ c_ret r2 = AF_OK /\
  c_arg r2 = ArgFloat v /\
  c_af r2 = c_af r1 /\
  vol (af_priv (c_af r1)) = v /\
  level (af_priv (c_af r1))
  = double_to_float (pow (float_to_double v) (F64.of_int 3)).
Proof. repeat split. Qed.

(** C9, as amended.  After a reinitialization the format of [af->data]
    is, once de-planarized, [AF_FORMAT_S16] exactly when [fast] is set and
    the de-planarized input format is not [AF_FORMAT_FLOAT], the format of
    single precision, and [AF_FORMAT_FLOAT] otherwise; it is planar exactly
    when the input format is. *)
Theorem C9_format_negotiation (af : af_instance) (in_ : mp_audio) :
  let f := format (af_data (c_af (control pow af_test_output af
                                          (AF_CONTROL_REINIT in_)))) in
  (af_fmt_from_planar f = AF_FORMAT_S16 <->
     fast (af_priv af) <> 0 /\
     af_fmt_from_planar (format in_) <> AF_FORMAT_FLOAT) /\
  (af_fmt_from_planar f = AF_FORMAT_FLOAT <->
     ~ (fast (af_priv af) <> 0 /\
        af_fmt_from_planar (format in_) <> AF_FORMAT_FLOAT)) /\
  af_fmt_is_planar f = af_fmt_is_planar (format in_).
Proof.
  intros f. subst f. rewrite control_reinit_af. simpl.
  unfold reinit_format.
  destruct (Z.eqb_spec (fast (af_priv af)) 0) as [Hf|Hf]; simpl;
    destruct (format in_) eqn:Hin; simpl;
    (split; [|split]; [split|split|reflexivity]);
    try discriminate; try tauto;
    try (intros _; split; [assumption|discriminate]);
    try (intros _ [_ H]; now apply H);
    try (intros H; exfalso; apply H; split; [assumption|discriminate]).
Qed.

(** *** Claims on the gain *)

Lemma from_dB_is_float in_ k mi ma :
  exists z, from_dB pow in_ k mi ma = double_to_float z.
Proof. unfold from_dB. destruct (SFleb _ _); eexists; reflexivity. Qed.

Lemma MPCLAMP_SF_range (a mi ma : spec_float) :
  a <> S754_nan -> mi <> S754_nan -> ma <> S754_nan ->
  SFleb mi ma = true ->
  SFleb mi (MPCLAMP SFltb a mi ma) = true /\
  SFleb (MPCLAMP SFltb a mi ma) ma = true.
Proof.
  intros Ha Hmi Hma Hle. unfold MPCLAMP.
  destruct (SFltb a mi) eqn:E1; [split; [now apply SFleb_refl|trivial]|].
  destruct (SFltb ma a) eqn:E2; [split; [trivial|now apply SFleb_refl]|].
  split; now apply SFltb_false_SFleb.
Qed.

(** C5. [from_dB] returns 0 for every input [<= -200]; otherwise it
    returns [pow(10.0, MPCLAMP(in, mi, ma) / k)], where the clamped value
    lies between [mi] and [ma]; and [from_dB(0, 20, -200, 60)] is [1.0]. *)
Theorem C5_from_dB (in_ k mi ma : spec_float) :
  (SFleb in_ (F32.of_int (-200)) = true ->
   from_dB pow in_ k mi ma = S754_zero false) /\
  (SFleb in_ (F32.of_int (-200)) = false ->
   from_dB pow in_ k mi ma
   = double_to_float
       (pow (F64.of_int 10)
            (float_to_double (F32.div (MPCLAMP SFltb in_ mi ma) k)))) /\
  (in_ <> S754_nan -> mi <> S754_nan -> ma <> S754_nan ->
   SFleb mi ma = true ->
   SFleb mi (MPCLAMP SFltb in_ mi ma) = true /\
   SFleb (MPCLAMP SFltb in_ mi ma) ma = true) /\
  from_dB pow (F32.of_int 0) (F32.of_int 20) (F32.of_int (-200))
          (F32.of_int 60) = F32.of_int 1.
Proof.
  split; [|split; [|split]].
  - intros H. unfold from_dB. now rewrite H.
  - intros H. unfold from_dB. now rewrite H.
  - apply MPCLAMP_SF_range.
  - exact (from_dB_20_zero false).
Qed.

(** C6, as amended.  With a replaygain mode set and the metadata present,
    a reinitialization takes the track pair when [rgain_track] is set (also
    when [rgain_album] is set too) and the album pair otherwise, adds
    [rgain_preamp] to the gain and converts it with
    [from_dB(gain, 20, -200, 60)]; where the limiting step runs
    ([rgain_clip] is 0) the level becomes [MPMIN(rgain, 1.0 / peak)],
    computed in [double] and stored in the [float] [rgain], and for
    [peak > 1] and a gain that is a number it is at most [1.0 / peak]
    rounded to [float]. *)
Theorem C6_replaygain (s : priv) (rg : replaygain_data) :
  rgain_track s <> 0 \/ rgain_album s <> 0 ->
  let gain := if rgain_track s =? 0 then album_gain rg else track_gain rg in
  let peak := if rgain_track s =? 0 then album_peak rg else track_peak rg in
  let g := from_dB pow (F32.add gain (rgain_preamp s))
                   (F32.of_int 20) (F32.of_int (-200)) (F32.of_int 60) in
  let limit := F64.div (F64.of_int 1) (float_to_double peak) in
  let r := rgain (reinit_rgain pow s (Some rg)) in
  (rgain_clip s = 0 ->
   r = double_to_float (MPMIN SFltb (float_to_double g) limit)) /\
  (rgain_clip s <> 0 -> r = g) /\
  (rgain_clip s = 0 -> SFltb (F32.of_int 1) peak = true ->
   g <> S754_nan ->
   SFleb r (double_to_float limit) = true).
Proof.
  intros Hmode gain peak g limit r.
  assert (Hr : r = if rgain_clip s =? 0
                   then double_to_float
                          (MPMIN SFltb (float_to_double g) limit)
                   else g).
  { subst r g limit gain peak. unfold reinit_rgain. simpl.
    assert (Hb : negb (rgain_track s =? 0) || negb (rgain_album s =? 0)
                 = true).
    { destruct Hmode as [H|H]; apply Z.eqb_neq in H; rewrite H;
        simpl; auto using orb_true_r. }
    rewrite Hb.
    destruct (rgain_track s =? 0); simpl;
      destruct (rgain_clip s =? 0); reflexivity. }
  split; [|split].
  - intros Hc. rewrite Hr. apply Z.eqb_eq in Hc. now rewrite Hc.
  - intros Hc. rewrite Hr. apply Z.eqb_neq in Hc. now rewrite Hc.
  - intros Hc Hpeak Hg. rewrite Hr. apply Z.eqb_eq in Hc. rewrite Hc.
    destruct (from_dB_is_float (F32.add gain (rgain_preamp s))
                (F32.of_int 20) (F32.of_int (-200)) (F32.of_int 60))
      as [z Ez].
    fold g in Ez. rewrite Ez in *. now apply clip_limit_le.
Qed.

(** *** Claims on the processing of frames *)

Lemma plane_level_unity (s : priv) (sz : bool) :
  level s = F32.of_int 1 -> rgain s = F32.of_int 1 ->
  cfg_volume s = S754_zero sz ->
  plane_level pow s = F32.of_int 1.
Proof.
  intros Hl Hr Hc. unfold plane_level.
  rewrite Hl, Hr, Hc, from_dB_20_zero. reflexivity.
Qed.

Lemma filter_planes_noop (af : af_instance) (data : mp_audio) (k n : nat) :
  (forall p, filter_plane pow af_softclip af data p = Some (af, data)) ->
  filter_planes pow af_softclip af data k n = Some (af, data).
Proof.
  intros H. revert n. induction k as [|k IH]; intros n; simpl; trivial.
  now rewrite H.
Qed.

(** C8. At unity gain ([level = 1.0], [rgain = 1.0], [cfg_volume = 0]) the
    gain of a plane is [1.0] and its fixed-point form is 256; processing a
    plane, and so a whole frame, leaves every sample as it is, in the
    fixed-point path and in the floating path alike, and asks for no
    writeable copy. *)
Theorem C8_unity_gain_noop (af : af_instance) (data : mp_audio) (p : nat)
        (sz : bool) :
  level (af_priv af) = F32.of_int 1 ->
  rgain (af_priv af) = F32.of_int 1 ->
  cfg_volume (af_priv af) = S754_zero sz ->
  plane_level pow (af_priv af) = F32.of_int 1 /\
  plane_vol_s16 (plane_level pow (af_priv af)) = Some 256 /\
  filter_plane pow af_softclip af data p = Some (af, data) /\
  filter pow af_softclip af (Some data)
  = Some (0, af_add_output_frame af data).
Proof.
  intros Hl Hr Hc.
  pose proof (plane_level_unity _ sz Hl Hr Hc) as Hlev.
  assert (Hp : forall q, filter_plane pow af_softclip af data q
                         = Some (af, data)).
  { intros q. unfold filter_plane. rewrite Hlev.
    change (plane_vol_s16 (F32.of_int 1)) with (Some 256).
    change (SFneqb (float_to_double (F32.of_int 1)) (F64.of_int 1))
      with false.
    simpl. now repeat destruct (bool_decide _). }
  split; [exact Hlev|]. split; [now rewrite Hlev|]. split; [apply Hp|].
  unfold filter. now rewrite filter_planes_noop.
Qed.


(** [af_make_writeable] touches the buffer pool only. *)
Lemma af_make_writeable_frame (af : af_instance) (data : mp_audio) :
  af_priv (snd (af_make_writeable af data)) = af_priv af /\
  af_data (snd (af_make_writeable af data)) = af_data af /\
  out_queued (snd (af_make_writeable af data)) = out_queued af.
Proof.
  unfold af_make_writeable. destruct (out_pool af) as [|[] pool]; now simpl.
Qed.

Lemma filter_plane_frame (af af' : af_instance) (data data' : mp_audio)
      (p : nat) :
  filter_plane pow af_softclip af data p = Some (af', data') ->
  af_priv af' = af_priv af /\ af_data af' = af_data af /\
  out_queued af' = out_queued af.
Proof.
  pose proof (af_make_writeable_frame af data) as Hw.
  unfold filter_plane. destruct (af_make_writeable af data) as [r af1].
  simpl in Hw. intros H.
  repeat match type of H with
         | context [match ?x with _ => _ end] => destruct x
         end; try discriminate; injection H as <- <-; tauto.
Qed.

Lemma filter_planes_frame (af af' : af_instance) (data data' : mp_audio)
      (k n : nat) :
  filter_planes pow af_softclip af data k n = Some (af', data') ->
  af_priv af' = af_priv af /\ af_data af' = af_data af /\
  out_queued af' = out_queued af.
Proof.
  revert af data n. induction k as [|k IH]; intros af data n H; simpl in H.
  - injection H as <- <-. tauto.
  - destruct (filter_plane pow af_softclip af data n) as [[af1 d1]|] eqn:E;
      [|discriminate].
    apply filter_plane_frame in E as (E1 & E2 & E3).
    apply IH in H as (H1 & H2 & H3). repeat split; congruence.
Qed.








(** C3, as amended.  The fixed-point gain is [256 * level] with the
    fraction discarded: for a finite non-negative [level = m * 2 ^ e] it
    is the integer [z] with [z <= 256 * level < z + 1], whenever that fits
    [int]. *)
Theorem C3_integer_gain_truncates (m : positive) (e : Z) :
  F32.valid (S754_finite false m e) = true ->
  let z := Z.shiftl (Zpos m) (e + 8) in
  z <= INT_MAX ->
  plane_vol_s16 (S754_finite false m e) = Some z /\
  plane_vol_s16 (S754_zero false) = Some 0 /\
  (0 <= e + 8 -> z = Zpos m * 2 ^ (e + 8)) /\
  (e + 8 < 0 ->
   z * 2 ^ (- (e + 8)) <= Zpos m < (z + 1) * 2 ^ (- (e + 8))).
Proof.
  intros Hb z Hz. split; [|split; [reflexivity|split]].
  - unfold plane_vol_s16. rewrite double_to_int_mul_256 by exact Hb.
    simpl cond_Zopp. fold z. cbv zeta.
    assert (0 <= z) by (apply Z.shiftl_nonneg; lia).
    destruct (Z.leb_spec INT_MIN z); [|unfold INT_MIN in *; lia].
    destruct (Z.leb_spec z INT_MAX); [reflexivity|lia].
  - intros He. subst z. now rewrite Z.shiftl_mul_pow2.
  - intros He. subst z. rewrite Z.shiftl_div_pow2 by lia.
    assert (P : 0 < 2 ^ (- (e + 8))) by (apply Z.pow_pos_nonneg; lia).
    pose proof (Z.div_mod (Zpos m) (2 ^ (- (e + 8))) ltac:(lia)).
    pose proof (Z.mod_pos_bound (Zpos m) _ P). nia.
Qed.

(** In the fixed-point path with a gain other than 256, each of the first
    [num_samples] samples [x] of the plane becomes [(x * vol) >> 8] clamped
    to [SHRT_MIN .. SHRT_MAX]; the other samples stay.  The product is the
    one of [int], exact when it fits [int], and the shift is the floor
    division by 256, which keeps the sign. *)
Lemma fixed_point_scaling (af : af_instance) (data : mp_audio)
        (p : nat) (vol : Z) (a : list Z) :
  af_fmt_from_planar (format (af_data af)) = AF_FORMAT_S16 ->
  plane_vol_s16 (plane_level pow (af_priv af)) = Some vol ->
  vol <> 256 ->
  0 <= fst (af_make_writeable af data) ->
  planes data !! p = Some (PlaneS16 a) ->
  int_mul (samples data) (spf data) <= Z.of_nat (length a) ->
  let n := Z.to_nat (int_mul (samples data) (spf data)) in
  filter_plane pow af_softclip af data p
  = Some (snd (af_make_writeable af data),
          set_plane data p
            (PlaneS16
               (map (fun x => Z.max SHRT_MIN
                                (Z.min SHRT_MAX (Z.shiftr (int_mul x vol) 8)))
                    (take n a)
                ++ drop n a))) /\
  (forall x, INT_MIN <= x * vol <= INT_MAX -> int_mul x vol = x * vol) /\
  (forall x, Z.shiftr x 8 = x / 256).
Proof.
  intros Hf Hv Hne Hw Hp Hlen n. split; [|split].
  - unfold filter_plane. rewrite Hf, Hv. simpl bool_decide. cbv iota.
    apply Z.eqb_neq in Hne. rewrite Hne. simpl negb. cbv iota.
    destruct (af_make_writeable af data) as [r af1]. simpl in Hw.
    destruct (Z.ltb_spec r 0) as [Hr|Hr]; [lia|].
    simpl. rewrite Hp. fold n.
    pose proof (scale_s16_app vol n [] a) as Hs. simpl in Hs.
    rewrite Hs by (subst n; lia). do 4 f_equal.
    apply (f_equal (fun l => l ++ drop n a)).
    apply map_ext. intros x.
    rewrite MPCLAMP_Z by (unfold SHRT_MIN, SHRT_MAX; lia).
    apply wrap_small; unfold SHRT_MIN, SHRT_MAX; simpl; lia.
  - intros x Hx. unfold int_mul. apply wrap_small; [lia|].
    unfold INT_MIN, INT_MAX in Hx. simpl. lia.
  - intros x. now rewrite Z.shiftr_div_pow2 by lia.
Qed.

End properties.

(** ** Examples *)

Lemma pow_sample_zero (x : spec_float) (s : bool) :
  pow_sample x (S754_zero s) = F64.of_int 1.
Proof. reflexivity. Defined.

(** C1 at [level = 1.0], no replaygain, [detach] set and [volumedb = 6]:
    the reinitialization detaches. *)
Lemma C1_detach_decision_witness :
  let af := af0 priv_detach AF_FORMAT_FLOAT [] in
  let in_ := audio0 AF_FORMAT_S16 [] 0 in
  (level (af_priv af) = F32.of_int 1 /\
   rgain (reinit_rgain pow_sample (af_priv af) (af_replaygain_data af))
   = F32.of_int 1 /\
   detach (af_priv af) <> 0) /\
  c_ret (control pow_sample test_output_sample
                 (set_priv af (set_cfg_volume (af_priv af) (F32.of_int 6)))
                 (AF_CONTROL_REINIT in_)) = AF_DETACH.
Proof.
  intros af in_.
  assert (H : level (af_priv af) = F32.of_int 1 /\
              rgain (reinit_rgain pow_sample (af_priv af)
                                  (af_replaygain_data af)) = F32.of_int 1 /\
              detach (af_priv af) <> 0)
    by (repeat split; discriminate).
  split; [exact H|]. destruct H as (H1 & H2 & H3).
  exact (proj2 (proj2 (proj2
           (C1_detach_decision pow_sample test_output_sample af in_
                               (F32.of_int 6)))) H1 H2 H3).
Defined.

(** C5 at 0 dB. *)
Lemma C5_from_dB_witness :
  from_dB pow_sample (F32.of_int 0) (F32.of_int 20) (F32.of_int (-200))
          (F32.of_int 60) = F32.of_int 1.
Proof.
  exact (proj2 (proj2 (proj2
           (C5_from_dB pow_sample pow_sample_zero (F32.of_int 0)
                       (F32.of_int 20) (F32.of_int (-200)) (F32.of_int 60))))).
Defined.

(** C6 at gain 0 dB and peak 3.0: the level is limited to the [float]
    nearest to 1/3. *)
Lemma C6_replaygain_witness :
  let s := priv_track 0 in
  let rg := rg_peak (F32.of_int 3) in
  (rgain_track s <> 0 /\ rgain_clip s = 0 /\
   SFltb (F32.of_int 1) (track_peak rg) = true) /\
  rgain (reinit_rgain pow_sample s (Some rg)) = f32 1 3 /\
  SFleb (rgain (reinit_rgain pow_sample s (Some rg)))
        (double_to_float
           (F64.div (F64.of_int 1) (float_to_double (track_peak rg))))
  = true.
Proof.
  intros s rg.
  assert (H1 : rgain_track s <> 0) by discriminate.
  assert (H2 : rgain_clip s = 0) by reflexivity.
  assert (H3 : SFltb (F32.of_int 1) (track_peak rg) = true) by reflexivity.
  split; [auto|]. split; [reflexivity|].
  refine (proj2 (proj2 (C6_replaygain pow_sample s rg (or_introl H1)))
                H2 H3 _).
  discriminate.
Defined.

(** C6, as stated, fails at gain 0 dB and peak 3.0 with the limiting step
    running: [1.0 / peak] is computed in [double] and rounded up when it is
    stored in the [float] [rgain], which ends at 11184811 * 2^-25, above
    1/3, in exact arithmetic and compared with [1.0 / peak] in [double]. *)
Lemma C6_clip_limit_exceeded :
  let peak := F32.of_int 3 in
  let s := priv_track 0 in
  let r := rgain (reinit_rgain pow_sample s (Some (rg_peak peak))) in
  rgain_track s <> 0 /\ rgain_clip s = 0 /\
  SFltb (F32.of_int 1) peak = true /\
  r = S754_finite false 11184811 (-25) /\
  2 ^ 25 < 3 * 11184811 /\
  SFleb (float_to_double r)
        (F64.div (F64.of_int 1) (float_to_double peak)) = false.
Proof. repeat split; try discriminate; vm_compute; reflexivity. Qed.

(** C7 at gain 0 dB and peak 2.0: with [replaygain-clip] set the level
    stays 1.0; it is limited to 0.5 with the option clear. *)
Theorem C7_replaygain_clip_set :
  rgain (reinit_rgain pow_sample (priv_track 1)
                      (Some (rg_peak (F32.of_int 2)))) = F32.of_int 1 /\
  rgain (reinit_rgain pow_sample (priv_track 0)
                      (Some (rg_peak (F32.of_int 2)))) = f32 1 2.
Proof. split; reflexivity. Qed.

(** C8 on a fixed-point and on a floating frame. *)
Lemma C8_unity_gain_noop_witness :
  let af := af0 priv0 AF_FORMAT_S16 [false] in
  let data := audio0 AF_FORMAT_S16 [PlaneS16 [1; -2; 32767]] 3 in
  let af' := af0 priv0 AF_FORMAT_FLOATP [false] in
  let data' := audio0 AF_FORMAT_FLOATP [PlaneFloat [f32 1 3; f32 (-7) 2]] 2 in
  (level priv0 = F32.of_int 1 /\ rgain priv0 = F32.of_int 1 /\
   cfg_volume priv0 = S754_zero false) /\
  filter_plane pow_sample softclip_sample af data 0 = Some (af, data) /\
  filter_plane pow_sample softclip_sample af' data' 0 = Some (af', data').
Proof.
  intros af data af' data'.
  assert (H : level priv0 = F32.of_int 1 /\ rgain priv0 = F32.of_int 1 /\
              cfg_volume priv0 = S754_zero false) by (repeat split).
  split; [exact H|]. destruct H as (H1 & H2 & H3). split.
  - exact (proj1 (proj2 (proj2
             (C8_unity_gain_noop pow_sample softclip_sample pow_sample_zero
                                 af data 0%nat false H1 H2 H3)))).
  - exact (proj1 (proj2 (proj2
             (C8_unity_gain_noop pow_sample softclip_sample pow_sample_zero
                                 af' data' 0%nat false H1 H2 H3)))).
Defined.



(** C3, as stated, fails at the gain 511/512: [256 * gain] is 255.5, which
    rounds to 256, and the code scales by 255, so that the sample 256 becomes
    255. *)
Lemma C3_gain_not_rounded :
  plane_level pow_sample priv_gain_511_512 = f32 511 512 /\
  intGain_spec (f32 511 512) = Some 256 /\
  plane_vol_s16 (plane_level pow_sample priv_gain_511_512) = Some 255 /\
  filter_plane pow_sample softclip_sample
               (af0 priv_gain_511_512 AF_FORMAT_S16 [])
               (audio0 AF_FORMAT_S16 [PlaneS16 [256]] 1) 0
  = Some (af0 priv_gain_511_512 AF_FORMAT_S16 [],
          audio0 AF_FORMAT_S16 [PlaneS16 [255]] 1).
Proof. repeat split. Qed.

(** C3, as amended, at the same gain. *)
Lemma C3_integer_gain_truncates_witness :
  (F32.valid (S754_finite false 16744448 (-24)) = true /\
   Z.shiftl 16744448 (-24 + 8) <= INT_MAX) /\
  plane_vol_s16 (S754_finite false 16744448 (-24)) = Some 255.
Proof.
  assert (H1 : F32.valid (S754_finite false 16744448 (-24)) = true)
    by reflexivity.
  assert (H2 : Z.shiftl 16744448 (-24 + 8) <= INT_MAX) by discriminate.
  split; [auto|].
  exact (proj1 (C3_integer_gain_truncates 16744448 (-24) H1 H2)).
Defined.

(** The scaling at gain 2.0 ([vol = 512]): 10000 becomes 20000, 30000 is clamped to
    32767, and the shift keeps the sign of -1 * 512. *)
Lemma fixed_point_scaling_gain2 :
  let af := af0 priv_gain2 AF_FORMAT_S16 [] in
  let data := audio0 AF_FORMAT_S16 [PlaneS16 [10000; 30000; -1; -30000]] 4 in
  plane_vol_s16 (plane_level pow_sample priv_gain2) = Some 512 /\
  filter_plane pow_sample softclip_sample af data 0
  = Some (af, audio0 AF_FORMAT_S16
                     [PlaneS16 [20000; 32767; -2; -32768]] 4).
Proof.
  intros af data.
  assert (Hv : plane_vol_s16 (plane_level pow_sample (af_priv af)) = Some 512)
    by reflexivity.
  split; [exact Hv|].
  refine (eq_trans
            (proj1 (fixed_point_scaling pow_sample softclip_sample af data
                      0%nat 512 [10000; 30000; -1; -30000]
                      eq_refl Hv _ _ eq_refl _)) _).
  - discriminate.
  - discriminate.
  - discriminate.
  - reflexivity.
Qed.

(** C4 at [volumedb = 60], the upper end of the option's range: the gain is
    1000 and [vol = 256000].  For the sample 10000 the product
    2 560 000 000 does not fit [int]; wrapped to 32 bits it is negative, and
    the sample is stored as -32768, where the claim's
    [(sample * intGain) >> 8], clamped, is 32767. *)
Theorem C4_fixed_point_overflow :
  let af := af0 priv_db60 AF_FORMAT_S16 [] in
  plane_vol_s16 (plane_level pow_sample (af_priv af)) = Some 256000 /\
  INT_MAX < 10000 * 256000 /\
  filter_plane pow_sample softclip_sample af
               (audio0 AF_FORMAT_S16 [PlaneS16 [10000]] 1) 0
  = Some (af, audio0 AF_FORMAT_S16 [PlaneS16 [-32768]] 1) /\
  scale_spec 10000 256000 = 32767.
Proof. repeat split; vm_compute; reflexivity. Qed.

(** C10 at the volume 2.0: the level becomes 8.0 and the volume read back
    is 2.0. *)
Example set_get_volume_2 :
  let r1 := control pow_sample test_output_sample (af0 priv0 AF_FORMAT_S16 [])
                    (AF_CONTROL_SET_VOLUME (F32.of_int 2)) in
  level (af_priv (c_af r1)) = F32.of_int 8 /\
  c_arg (control pow_sample test_output_sample (c_af r1)
                 (AF_CONTROL_GET_VOLUME (F32.of_int 0)))
  = ArgFloat (F32.of_int 2).
Proof. split; reflexivity. Qed.

(** C9 on a planar 32-bit integer input in fast mode: planar 16-bit. *)
Example format_negotiation_s32p :
  format (af_data (c_af (control pow_sample test_output_sample
                           (af0 (Build_priv (F32.of_int 1) (F32.of_int 1)
                                   (F32.of_int 1) 0 0 (F32.of_int 0) 0
                                   (F32.of_int 0) 0 1 0 (F32.of_int 0))
                                AF_FORMAT_FLOAT [])
                           (AF_CONTROL_REINIT (audio0 AF_FORMAT_S32P [] 0)))))
  = AF_FORMAT_S16P.
Proof. reflexivity. Qed.

(** C9, as stated, fails on a double-precision input in fast mode: the
    input is floating point, and the format chosen is the 16-bit one. *)
Lemma C9_double_gets_fixed_point :
  let in_ := audio0 AF_FORMAT_DOUBLE [] 0 in
  fast priv_fast <> 0 /\
  is_floating_point_spec (af_fmt_from_planar (format in_)) = true /\
  format (af_data (c_af (control pow_sample test_output_sample
                                 (af0 priv_fast AF_FORMAT_FLOAT [])
                                 (AF_CONTROL_REINIT in_))))
  = AF_FORMAT_S16 /\
  format (af_data (c_af (control pow_sample test_output_sample
                                 (af0 priv_fast AF_FORMAT_FLOAT [])
                                 (AF_CONTROL_REINIT
                                    (audio0 AF_FORMAT_DOUBLEP [] 0)))))
  = AF_FORMAT_S16P.
Proof. repeat split; discriminate. Qed.

(** ** Further properties of the filter *)

(** Reduction of the field updates of [struct priv], and of nothing else. *)
Ltac priv_fields :=
  cbv beta iota delta
      [set_rgain set_vol set_level set_cfg_volume vol level rgain rgain_track
       rgain_album rgain_preamp rgain_clip replaygain_fallback soft fast
       detach cfg_volume].

Section further.

Variable pow : spec_float -> spec_float -> spec_float.
Variable af_softclip : spec_float -> spec_float.
Variable af_test_output : af_instance -> mp_audio -> Z * mp_audio.

(** *** The control handler *)

(** [reinit_rgain] writes [rgain] only, with a value that does not depend
    on the one it finds. *)
Lemma reinit_rgain_set_rgain (s : priv) (rg : option replaygain_data)
      (x y : spec_float) :
  reinit_rgain pow (set_rgain s x) rg = reinit_rgain pow (set_rgain s y) rg.
Proof.
  destruct s. unfold reinit_rgain. priv_fields.
  destruct (negb _ || negb _); [destruct rg as [rg|]|]; reflexivity.
Qed.

Lemma reinit_rgain_writes_rgain (s : priv) (rg : option replaygain_data) :
  reinit_rgain pow s rg = set_rgain s (rgain (reinit_rgain pow s rg)).
Proof.
  destruct s. unfold reinit_rgain. priv_fields.
  destruct (negb _ || negb _); [destruct rg as [rg|]|].
  - destruct (negb _); destruct (_ =? 0); priv_fields; reflexivity.
  - destruct (SFneqb _ _); priv_fields; reflexivity.
  - destruct (SFneqb _ _); priv_fields; reflexivity.
Qed.

Lemma set_rgain_rgain (s : priv) : set_rgain s (rgain s) = s.
Proof. now destruct s. Qed.

Lemma reinit_rgain_options (s : priv) (rg : option replaygain_data) :
  same_options s (reinit_rgain pow s rg) /\
  vol (reinit_rgain pow s rg) = vol s /\
  level (reinit_rgain pow s rg) = level s.
Proof.
  rewrite reinit_rgain_writes_rgain.
  generalize (rgain (reinit_rgain pow s rg)). intros v.
  destruct s. unfold same_options. priv_fields. repeat split.
Qed.

(** X1. No control message changes an option, the replaygain metadata, the
    buffer pool or the output queue.  A reinitialization leaves [vol] and
    [level], setting the volume leaves [rgain] and [af->data], and reading
    the volume or an unknown command leaves the whole instance. *)
Theorem X1_control_keeps_options (af : af_instance) (cmd : af_control) :
  let af' := c_af (control pow af_test_output af cmd) in
  same_options (af_priv af) (af_priv af') /\
  af_replaygain_data af' = af_replaygain_data af /\
  out_pool af' = out_pool af /\ out_queued af' = out_queued af /\
  match cmd with
  | AF_CONTROL_REINIT _ =>
      vol (af_priv af') = vol (af_priv af) /\
      level (af_priv af') = level (af_priv af)
  | AF_CONTROL_SET_VOLUME _ =>
      rgain (af_priv af') = rgain (af_priv af) /\ af_data af' = af_data af
  | AF_CONTROL_GET_VOLUME _ | AF_CONTROL_other _ => af' = af
  end.
Proof.
  destruct cmd as [in_|v|old|c]; cbv zeta.
  - rewrite control_reinit_af. simpl.
    destruct (reinit_rgain_options (af_priv af) (af_replaygain_data af))
      as (Ho & Hv & Hl).
    repeat split; trivial; apply Ho.
  - simpl. unfold same_options. repeat split.
  - simpl. unfold same_options. repeat split.
  - simpl. unfold same_options. repeat split.
Qed.

Lemma reinit_rgain_idem (s : priv) (rg : option replaygain_data) :
  reinit_rgain pow (reinit_rgain pow s rg) rg = reinit_rgain pow s rg.
Proof.
  rewrite (reinit_rgain_writes_rgain s rg) at 1.
  now rewrite (reinit_rgain_set_rgain s rg _ (rgain s)), set_rgain_rgain.
Qed.

(** [reinit_format] takes format, rate and channels from the input and
    everything else from [af->data]. *)
Lemma reinit_format_eq (s : priv) (d in_ : mp_audio) :
  let f := if negb (fast s =? 0)
              && negb (bool_decide (af_fmt_from_planar (format in_)
                                    = AF_FORMAT_FLOAT))
           then AF_FORMAT_S16 else AF_FORMAT_FLOAT in
  reinit_format s d in_
  = Build_mp_audio (if af_fmt_is_planar (format in_)
                    then af_fmt_to_planar f else f)
                   (rate in_) (nch in_) (samples d) (spf d)
                   (num_planes d) (planes d).
Proof.
  destruct d as [fd rd cd nd sd pd pld], in_ as [fi ri ci ni si pi pli].
  unfold reinit_format, mp_audio_copy_config,
    mp_audio_force_interleaved_format, mp_audio_set_format.
  simpl. destruct (af_fmt_is_planar fi); simpl;
    destruct (negb _ && negb _); reflexivity.
Qed.

Lemma reinit_format_idem (s s' : priv) (d in_ : mp_audio) :
  fast s' = fast s ->
  reinit_format s' (reinit_format s d in_) in_ = reinit_format s d in_.
Proof.
  intros Hf.
  rewrite (reinit_format_eq s' (reinit_format s d in_) in_).
  rewrite (reinit_format_eq s d in_). cbv zeta. now rewrite Hf.
Qed.

(** X2. A reinitialization starts from [rgain = 1.0], so what it computes
    does not depend on the replaygain level left by an earlier one; and a
    second reinitialization with the same input leaves the instance as the
    first one left it and returns the same result. *)
Theorem X2_reinit_idempotent (af : af_instance) (in_ : mp_audio)
        (x : spec_float) :
  let r1 := control pow af_test_output af (AF_CONTROL_REINIT in_) in
  let r2 := control pow af_test_output (c_af r1) (AF_CONTROL_REINIT in_) in
  c_af r2 = c_af r1 /\ c_ret r2 = c_ret r1 /\
  c_af (control pow af_test_output (set_priv af (set_rgain (af_priv af) x))
                (AF_CONTROL_REINIT in_)) = c_af r1.
Proof.
  cbv zeta.
  assert (E : c_af (control pow af_test_output
                      (c_af (control pow af_test_output af
                                     (AF_CONTROL_REINIT in_)))
                      (AF_CONTROL_REINIT in_))
              = c_af (control pow af_test_output af (AF_CONTROL_REINIT in_))).
  { rewrite !control_reinit_af. unfold set_priv, set_data.
    cbn [af_priv af_data af_replaygain_data out_pool out_queued].
    rewrite reinit_rgain_idem, reinit_format_idem; [reflexivity|].
    apply reinit_rgain_options. }
  split; [exact E|]. split.
  - rewrite (control_reinit_ret pow af_test_output
               (c_af (control pow af_test_output af (AF_CONTROL_REINIT in_)))).
    rewrite (control_reinit_ret pow af_test_output af). cbv zeta.
    rewrite !control_reinit_af. unfold set_priv, set_data.
    cbn [af_priv af_data af_replaygain_data out_pool out_queued].
    rewrite reinit_rgain_idem, reinit_format_idem; [reflexivity|].
    apply reinit_rgain_options.
  - rewrite !control_reinit_af. unfold set_priv, set_data.
    cbn [af_priv af_data af_replaygain_data out_pool out_queued].
    now rewrite (reinit_rgain_set_rgain _ _ x (rgain (af_priv af))),
      set_rgain_rgain.
Qed.

Lemma SFleb_m200_nonzero (x : spec_float) :
  SFleb x (F32.of_int (-200)) = true -> SFneqb x (F32.of_int 0) = true.
Proof.
  change (F32.of_int (-200)) with (S754_finite true 13107200 (-16)).
  change (F32.of_int 0) with (S754_zero false).
  destruct x as [sx|sx| |sx m e]; try discriminate.
  - now destruct sx.
  - now destruct sx.
Qed.

(** X3. Without a replaygain mode, or without metadata, a reinitialization
    takes the fallback gain when it is not zero and leaves [rgain = 1.0] when
    it is; a fallback of -200 dB or less mutes ([rgain = 0]). *)
Theorem X3_fallback_gain (s : priv) (rg : option replaygain_data) :
  (rgain_track s = 0 /\ rgain_album s = 0) \/ rg = None ->
  let r := rgain (reinit_rgain pow s rg) in
  (SFneqb (replaygain_fallback s) (F32.of_int 0) = true ->
   r = from_dB pow (replaygain_fallback s) (F32.of_int 20)
               (F32.of_int (-200)) (F32.of_int 60)) /\
  (SFneqb (replaygain_fallback s) (F32.of_int 0) = false ->
   r = F32.of_int 1) /\
  (SFleb (replaygain_fallback s) (F32.of_int (-200)) = true ->
   r = S754_zero false).
Proof.
  intros Hno r.
  assert (Hr : r = if SFneqb (replaygain_fallback s) (F32.of_int 0)
                   then from_dB_20 pow (replaygain_fallback s)
                   else F32.of_int 1).
  { subst r. destruct s. unfold reinit_rgain. priv_fields.
    simpl in Hno.
    destruct Hno as [[-> ->]| ->].
    - change (negb (0 =? 0) || negb (0 =? 0)) with false. cbv iota.
      destruct (SFneqb _ _); reflexivity.
    - destruct (negb _ || negb _); destruct (SFneqb _ _); reflexivity. }
  split; [|split].
  - intros H. now rewrite Hr, H.
  - intros H. now rewrite Hr, H.
  - intros H. rewrite Hr, (SFleb_m200_nonzero _ H).
    unfold from_dB_20, from_dB. now rewrite H.
Qed.

(** X4. The format a reinitialization chooses is stable: offered as the
    input format, it is chosen again.  Rate and channels of [af->data] are
    those of the input. *)
Theorem X4_negotiation_stable (s : priv) (d d' in_ : mp_audio) :
  let out := reinit_format s d in_ in
  format (reinit_format s d' out) = format out /\
  rate out = rate in_ /\ nch out = nch in_.
Proof.
  cbv zeta. rewrite (reinit_format_eq s d' (reinit_format s d in_)).
  rewrite (reinit_format_eq s d in_). cbv zeta. simpl.
  split; [|split; reflexivity].
  destruct (negb (fast s =? 0)); simpl; destruct (format in_); reflexivity.
Qed.

(** X5. A filter that was just opened, with no replaygain mode, no fallback
    gain and [detach] set, detaches at its first reinitialization, whatever
    [volumedb] is. *)
Theorem X5_open_reinit_detaches (af : af_instance) (in_ : mp_audio) :
  rgain_track (af_priv af) = 0 -> rgain_album (af_priv af) = 0 ->
  SFneqb (replaygain_fallback (af_priv af)) (F32.of_int 0) = false ->
  detach (af_priv af) <> 0 ->
  fst (af_open af) = AF_OK /\
  c_ret (control pow af_test_output (snd (af_open af))
                 (AF_CONTROL_REINIT in_)) = AF_DETACH.
Proof.
  intros Ht Ha Hf Hd. split; [reflexivity|].
  rewrite control_reinit_ret. cbv zeta.
  unfold af_open, set_priv, set_data.
  cbn [snd af_priv af_data af_replaygain_data].
  rewrite detach_test_unity; trivial.
  - rewrite (proj2 (proj2 (reinit_rgain_options _ _))).
    destruct (af_priv af). reflexivity.
  - destruct (X3_fallback_gain
                (set_level (af_priv af) (double_to_float (F64.of_int 1)))
                (af_replaygain_data af)) as (_ & H & _).
    + left. destruct (af_priv af). split; assumption.
    + apply H. destruct (af_priv af). exact Hf.
  - destruct (reinit_rgain_options
                (set_level (af_priv af) (double_to_float (F64.of_int 1)))
                (af_replaygain_data af)) as (Ho & _).
    destruct Ho as (_ & _ & _ & _ & _ & _ & _ & Hdet & _).
    rewrite Hdet. destruct (af_priv af). exact Hd.
Qed.

(** *** The fixed-point loop *)

Lemma filter_plane_s16_run (af : af_instance) (data : mp_audio) (p : nat)
      (vol : Z) (a : list Z) :
  s16_plane_ready pow af data p vol a ->
  filter_plane pow af_softclip af data p
  = Some (snd (af_make_writeable af data),
          set_plane data p
            (PlaneS16
               (map (fun x => wrap 16 (MPCLAMP Z.ltb
                                         (Z.shiftr (int_mul x vol) 8)
                                         SHRT_MIN SHRT_MAX))
                    (take (num_samples data) a)
                ++ drop (num_samples data) a))).
Proof.
  intros (Hf & Hv & Hne & Hw & Hp & Hlen).
  unfold filter_plane. rewrite Hf, Hv. simpl bool_decide. cbv iota.
  apply Z.eqb_neq in Hne. rewrite Hne. simpl negb. cbv iota.
  destruct (af_make_writeable af data) as [r af1]. simpl in Hw.
  destruct (Z.ltb_spec r 0) as [Hr|Hr]; [lia|].
  simpl. rewrite Hp. fold (num_samples data).
  pose proof (scale_s16_app vol (num_samples data) [] a) as Hs.
  simpl in Hs. rewrite Hs by (unfold num_samples; lia). reflexivity.
Qed.

(** The sample a step of the loop stores, as a clamp. *)
Lemma s16_step_clamp (vol x : Z) :
  wrap 16 (MPCLAMP Z.ltb (Z.shiftr (int_mul x vol) 8) SHRT_MIN SHRT_MAX)
  = Z.max SHRT_MIN (Z.min SHRT_MAX (int_mul x vol / 256)).
Proof.
  rewrite Z.shiftr_div_pow2 by lia. change (2 ^ 8) with 256.
  rewrite MPCLAMP_Z by (unfold SHRT_MIN, SHRT_MAX; lia).
  apply wrap_small; unfold SHRT_MIN, SHRT_MAX; simpl; lia.
Qed.

Lemma int_mul_exact (x y : Z) :
  INT_MIN <= x * y <= INT_MAX -> int_mul x y = x * y.
Proof.
  unfold INT_MIN, INT_MAX, int_mul. intros H.
  apply wrap_small; simpl; lia.
Qed.

Lemma lookup_scaled {A : Type} (f : A -> A) (n : nat) (a : list A) (i : nat) :
  (map f (take n a) ++ drop n a) !! i
  = if decide (i < n)%nat then f <$> a !! i else a !! i.
Proof.
  destruct (decide (i < n)%nat) as [Hi|Hi].
  - destruct (decide (i < length a)%nat) as [Hl|Hl].
    + rewrite lookup_app_l by (rewrite length_map, length_take; lia).
      change (map f (take n a)) with (f <$> take n a).
      now rewrite list_lookup_fmap, lookup_take_lt.
    + rewrite (lookup_ge_None_2 a i) by lia. simpl.
      apply lookup_ge_None_2.
      rewrite length_app, length_map, length_take, length_drop. lia.
  - rewrite lookup_app_r by (rewrite length_map, length_take; lia).
    rewrite length_map, length_take, lookup_drop.
    destruct (decide (n <= length a)%nat).
    + f_equal. lia.
    + rewrite !lookup_ge_None_2; trivial; lia.
Qed.

(** X6. In the fixed-point path the processed plane keeps its length; each
    of its first [num_samples] samples ends within [SHRT_MIN .. SHRT_MAX],
    whatever the sample and the gain were, and the samples behind them, like
    the other planes and the rest of the frame, stay as they were. *)
Theorem X6_fixed_point_range (af : af_instance) (data : mp_audio) (p : nat)
        (vol : Z) (a : list Z) :
  s16_plane_ready pow af data p vol a ->
  exists a',
    filter_plane pow af_softclip af data p
    = Some (snd (af_make_writeable af data),
            set_plane data p (PlaneS16 a')) /\
    length a' = length a /\
    (forall i y, (i < num_samples data)%nat -> a' !! i = Some y ->
                 SHRT_MIN <= y <= SHRT_MAX) /\
    (forall i, (num_samples data <= i)%nat -> a' !! i = a !! i) /\
    (forall q, q <> p ->
               planes (set_plane data p (PlaneS16 a')) !! q
               = planes data !! q).
Proof.
  intros Hready. pose proof Hready as (_ & _ & _ & _ & Hp & Hlen).
  eexists. split; [apply filter_plane_s16_run; exact Hready|].
  split; [|split; [|split]].
  - rewrite length_app, length_map, length_take, length_drop.
    unfold num_samples. lia.
  - intros i y Hi. rewrite lookup_scaled. destruct (decide _); [|lia].
    destruct (a !! i) as [x|]; [|discriminate]. simpl.
    intros [= <-]. rewrite s16_step_clamp.
    unfold SHRT_MIN, SHRT_MAX. lia.
  - intros i Hi. rewrite lookup_scaled. destruct (decide _); [lia|].
    reflexivity.
  - intros q Hq. simpl. now apply list_lookup_insert_ne.
Qed.

Lemma filter_plane_s16_scaled (af : af_instance) (data : mp_audio) (p : nat)
      (vol : Z) (a : list Z) :
  s16_plane_ready pow af data p vol a ->
  filter_plane pow af_softclip af data p
  = Some (snd (af_make_writeable af data),
          set_plane data p (PlaneS16 (scaled_s16 vol (num_samples data) a))).
Proof.
  intros H. rewrite (filter_plane_s16_run af data p vol a H).
  unfold scaled_s16. do 4 f_equal.
  apply (f_equal (fun l => l ++ drop (num_samples data) a)).
  apply map_ext. intros x. apply s16_step_clamp.
Qed.

Lemma lookup_scaled_s16 (vol : Z) (n : nat) (a : list Z) (i : nat) (x : Z) :
  (i < n)%nat -> a !! i = Some x ->
  scaled_s16 vol n a !! i
  = Some (Z.max SHRT_MIN (Z.min SHRT_MAX (int_mul x vol / 256))).
Proof.
  intros Hi Hx. unfold scaled_s16. rewrite lookup_scaled.
  destruct (decide _); [|lia]. now rewrite Hx.
Qed.

(** X7. A fixed-point gain between 1 and 255 (below unity) never raises the
    magnitude of a sample and never changes its sign; because the shift
    rounds down, a negative sample stays negative: it never reaches 0. *)
Theorem X7_fixed_point_attenuation (af : af_instance) (data : mp_audio)
        (p : nat) (vol : Z) (a : list Z) :
  s16_plane_ready pow af data p vol a ->
  0 < vol < 256 ->
  exists a',
    filter_plane pow af_softclip af data p
    = Some (snd (af_make_writeable af data),
            set_plane data p (PlaneS16 a')) /\
    forall i x, (i < num_samples data)%nat -> a !! i = Some x ->
                SHRT_MIN <= x <= SHRT_MAX ->
                exists y, a' !! i = Some y /\
                          (0 <= x -> 0 <= y <= x) /\
                          (x < 0 -> x <= y <= -1).
Proof.
  intros Hready Hvol. eexists.
  split; [apply filter_plane_s16_scaled; exact Hready|].
  intros i x Hi Hx Hrange. eexists.
  split; [apply lookup_scaled_s16; eassumption|].
  unfold SHRT_MIN, SHRT_MAX in *.
  rewrite int_mul_exact by (unfold INT_MIN, INT_MAX; simpl; nia).
  pose proof (Z.div_mod (x * vol) 256 ltac:(lia)) as Hd.
  pose proof (Z.mod_pos_bound (x * vol) 256 ltac:(lia)) as Hm.
  split; intros Hs; nia.
Qed.

(** X8. With a non-negative fixed-point gain the scaling keeps the order
    of the samples, as long as the products fit [int]. *)
Theorem X8_fixed_point_monotone (af : af_instance) (data : mp_audio)
        (p : nat) (vol : Z) (a : list Z) :
  s16_plane_ready pow af data p vol a ->
  0 <= vol ->
  Forall (fun x => INT_MIN <= x * vol <= INT_MAX) a ->
  exists a',
    filter_plane pow af_softclip af data p
    = Some (snd (af_make_writeable af data),
            set_plane data p (PlaneS16 a')) /\
    forall i j x1 x2, (i < num_samples data)%nat ->
                      (j < num_samples data)%nat ->
                      a !! i = Some x1 -> a !! j = Some x2 -> x1 <= x2 ->
                      exists y1 y2, a' !! i = Some y1 /\ a' !! j = Some y2 /\
                                    y1 <= y2.
Proof.
  intros Hready Hvol Hfit. eexists.
  split; [apply filter_plane_s16_scaled; exact Hready|].
  intros i j x1 x2 Hi Hj H1 H2 Hle. eexists _, _.
  split; [apply lookup_scaled_s16; eassumption|].
  split; [apply lookup_scaled_s16; eassumption|].
  rewrite Forall_forall in Hfit.
  rewrite !int_mul_exact
    by (apply Hfit; eapply list_elem_of_lookup_2; eassumption).
  assert (x1 * vol / 256 <= x2 * vol / 256)
    by (apply Z.div_le_mono; nia).
  lia.
Qed.

(** *** Muting *)

Lemma from_dB_20_silence (x : spec_float) :
  SFleb x (F32.of_int (-200)) = true -> from_dB_20 pow x = S754_zero false.
Proof. intros H. unfold from_dB_20, from_dB. now rewrite H. Qed.

Lemma plane_level_silence (s : priv) :
  SFleb (cfg_volume s) (F32.of_int (-200)) = true ->
  SFfinite (F32.mul (level s) (rgain s)) = true ->
  exists sz, plane_level pow s = S754_zero sz.
Proof.
  intros Hc Hf. unfold plane_level. rewrite (from_dB_20_silence _ Hc).
  destruct (F32.mul (level s) (rgain s)) as [sz|sz| |sz m e];
    try discriminate; eexists; reflexivity.
Qed.

(** X9. With [volumedb] at -200 or below and a finite [level * rgain] the
    gain is 0: in the fixed-point path every sample the loop visits becomes
    0. *)
Theorem X9_fixed_point_mute (af : af_instance) (data : mp_audio) (p : nat)
        (a : list Z) :
  SFleb (cfg_volume (af_priv af)) (F32.of_int (-200)) = true ->
  SFfinite (F32.mul (level (af_priv af)) (rgain (af_priv af))) = true ->
  af_fmt_from_planar (format (af_data af)) = AF_FORMAT_S16 ->
  0 <= fst (af_make_writeable af data) ->
  planes data !! p = Some (PlaneS16 a) ->
  int_mul (samples data) (spf data) <= Z.of_nat (length a) ->
  plane_vol_s16 (plane_level pow (af_priv af)) = Some 0 /\
  exists a',
    filter_plane pow af_softclip af data p
    = Some (snd (af_make_writeable af data),
            set_plane data p (PlaneS16 a')) /\
    length a' = length a /\
    forall i, (i < num_samples data)%nat -> a' !! i = Some 0.
Proof.
  intros Hc Hfin Hf Hw Hp Hlen.
  destruct (plane_level_silence _ Hc Hfin) as [sz Hlev].
  assert (Hv : plane_vol_s16 (plane_level pow (af_priv af)) = Some 0)
    by (rewrite Hlev; now destruct sz).
  split; [exact Hv|].
  assert (Hready : s16_plane_ready pow af data p 0 a)
    by (repeat split; trivial; lia).
  eexists. split; [apply filter_plane_s16_scaled; exact Hready|]. split.
  - unfold scaled_s16.
    rewrite length_app, length_map, length_take, length_drop.
    unfold num_samples. lia.
  - intros i Hi. assert (Hl : (i < length a)%nat) by (unfold num_samples in Hi; lia).
    destruct (lookup_lt_is_Some_2 a i Hl) as [x Hx].
    rewrite (lookup_scaled_s16 0 _ a i x Hi Hx).
    unfold int_mul. rewrite Z.mul_0_r. reflexivity.
Qed.

(** *** Whole frames *)

Lemma set_planes_set_plane (data : mp_audio) (p : nat) (pl : plane) :
  set_plane data p pl = set_planes data (<[p := pl]> (planes data)).
Proof. reflexivity. Qed.

Lemma pool_after_0 (af : af_instance) : pool_after af 0 = af.
Proof. now destruct af. Qed.

Lemma pool_after_S (af : af_instance) (k : nat) :
  pool_after (pool_after af 1) k = pool_after af (S k).
Proof.
  unfold pool_after. simpl. f_equal. now rewrite drop_drop.
Qed.

(** A pool without a failing entry serves every call. *)
Lemma af_make_writeable_ok (af : af_instance) (data : mp_audio) :
  Forall (fun b => b = true) (out_pool af) ->
  af_make_writeable af data = (0, pool_after af 1).
Proof.
  intros H. unfold af_make_writeable, pool_after.
  destruct af as [s d rg pool q]. simpl in *.
  destruct pool as [|b pool]; [reflexivity|].
  now apply Forall_cons in H as [-> _].
Qed.

Lemma scaled_s16_exact (vol : Z) (n : nat) (a : list Z) :
  Forall (fun x => INT_MIN <= x * vol <= INT_MAX) (take n a) ->
  scaled_s16 vol n a = scaled_exact_s16 vol n a.
Proof.
  intros H. unfold scaled_s16, scaled_exact_s16. f_equal.
  apply map_ext_in. intros x Hx. rewrite Forall_forall in H.
  rewrite int_mul_exact; [reflexivity|]. apply H.
  now apply list_elem_of_In.
Qed.

Lemma filter_planes_s16 (vol : Z) (n : nat) (rest : list (list Z)) :
  vol <> 256 ->
  forall (af : af_instance) (done : list (list Z)) (data : mp_audio),
    af_fmt_from_planar (format (af_data af)) = AF_FORMAT_S16 ->
    plane_vol_s16 (plane_level pow (af_priv af)) = Some vol ->
    Forall (fun b => b = true) (out_pool af) ->
    planes data = (PlaneS16 <$> done) ++ (PlaneS16 <$> rest) ->
    num_samples data = n ->
    Forall (fun a => (n <= length a)%nat) rest ->
    filter_planes pow af_softclip af data (length rest) (length done)
    = Some (pool_after af (length rest),
            set_planes data
              ((PlaneS16 <$> done)
               ++ (PlaneS16 <$> (scaled_s16 vol n <$> rest)))).
Proof.
  intros Hne.
  induction rest as [|a rest IH]; intros af done data Hf Hv Hpool Hpl Hn Hall.
  - simpl in *. rewrite pool_after_0, <- Hpl. now destruct data.
  - apply Forall_cons in Hall as [Ha Hall]. simpl filter_planes.
    pose proof (af_make_writeable_ok af data Hpool) as Hmw.
    assert (Hready : s16_plane_ready pow af data (length done) vol a).
    { repeat split; trivial.
      - rewrite Hmw. simpl. lia.
      - rewrite Hpl, fmap_cons.
        apply list_lookup_middle. now rewrite length_fmap.
      - unfold num_samples in Hn. lia. }
    rewrite (filter_plane_s16_scaled af data _ vol a Hready), Hmw.
    simpl snd. rewrite Hn.
    specialize (IH (pool_after af 1) (done ++ [scaled_s16 vol n a])
                   (set_plane data (length done)
                              (PlaneS16 (scaled_s16 vol n a)))).
    rewrite length_app in IH. simpl length in IH.
    replace (length done + 1)%nat with (S (length done)) in IH by lia.
    rewrite IH; trivial.
    + rewrite pool_after_S. f_equal. f_equal.
      unfold set_planes, set_plane. simpl. f_equal.
      rewrite fmap_app, <- app_assoc. reflexivity.
    + simpl. now apply Forall_drop.
    + simpl. rewrite Hpl, fmap_cons.
      rewrite insert_app_r_alt by (rewrite length_fmap; lia).
      rewrite length_fmap, Nat.sub_diag. simpl.
      rewrite fmap_app, <- app_assoc. reflexivity.
Qed.

(** X10. A frame whose planes are all 16-bit and long enough, processed
    with a gain other than 256 and a buffer pool without a failing entry, is
    queued with the gain applied to the first [num_samples] samples of every
    plane: where the products [x * vol] of the visited samples fit [int],
    each becomes [x * vol / 256], rounded down and clamped to
    [SHRT_MIN .. SHRT_MAX].  [filter] returns 0; every plane takes an entry
    of the pool, and the instance is otherwise as it was. *)
Theorem X10_fixed_point_frame (af : af_instance) (data : mp_audio) (vol : Z)
        (pls : list (list Z)) :
  af_fmt_from_planar (format (af_data af)) = AF_FORMAT_S16 ->
  plane_vol_s16 (plane_level pow (af_priv af)) = Some vol ->
  vol <> 256 ->
  Forall (fun b => b = true) (out_pool af) ->
  planes data = PlaneS16 <$> pls ->
  num_planes data = Z.of_nat (length pls) ->
  Forall (fun a => (num_samples data <= length a)%nat) pls ->
  Forall (fun a => Forall (fun x => INT_MIN <= x * vol <= INT_MAX)
                          (take (num_samples data) a)) pls ->
  filter pow af_softclip af (Some data)
  = Some (0, af_add_output_frame
               (pool_after af (length pls))
               (set_planes data
                  (PlaneS16 <$> (scaled_exact_s16 vol (num_samples data)
                                 <$> pls)))).
Proof.
  intros Hf Hv Hne Hpool Hpl Hnp Hall Hfit. unfold filter.
  rewrite Hnp, Nat2Z.id.
  pose proof (filter_planes_s16 vol (num_samples data) pls Hne af [] data
                Hf Hv Hpool Hpl eq_refl Hall) as H.
  simpl in H. rewrite H. do 5 f_equal.
  apply list_fmap_ext. intros i a Ha. apply scaled_s16_exact.
  rewrite Forall_lookup in Hfit. exact (Hfit i a Ha).
Qed.

(** *** The shape of a frame *)

Lemma scale_s16_length (vol : Z) (n i : nat) (a a' : list Z) :
  scale_s16 vol n i a = Some a' -> length a' = length a.
Proof.
  revert i a. induction n as [|n IH]; intros i a H; simpl in H.
  - now injection H as <-.
  - destruct (a !! i); [|discriminate].
    apply IH in H. now rewrite length_insert in H.
Qed.

Lemma scale_float_length (sf : Z) (vol : spec_float) (n i : nat)
      (a a' : list spec_float) :
  scale_float af_softclip sf vol n i a = Some a' -> length a' = length a.
Proof.
  revert i a. induction n as [|n IH]; intros i a H; simpl in H.
  - now injection H as <-.
  - destruct (a !! i); [|discriminate].
    apply IH in H. now rewrite length_insert in H.
Qed.

Lemma same_plane_shape_refl (pl : plane) : same_plane_shape pl pl.
Proof. now destruct pl. Qed.

Lemma same_plane_shape_trans (p1 p2 p3 : plane) :
  same_plane_shape p1 p2 -> same_plane_shape p2 p3 -> same_plane_shape p1 p3.
Proof. destruct p1, p2, p3; simpl; try tauto; congruence. Qed.

Lemma frame_kept_refl (d : mp_audio) : frame_kept d d.
Proof.
  split; [unfold same_shape; tauto|].
  intros q pl H. exists pl. split; [exact H|apply same_plane_shape_refl].
Qed.

Lemma frame_kept_trans (d1 d2 d3 : mp_audio) :
  frame_kept d1 d2 -> frame_kept d2 d3 -> frame_kept d1 d3.
Proof.
  intros [S1 P1] [S2 P2]. split.
  - unfold same_shape in *. repeat split; try lia; try congruence.
    all: destruct S1 as (? & ? & ? & ? & ? & ? & ?),
                  S2 as (? & ? & ? & ? & ? & ? & ?); congruence.
  - intros q pl H. destruct (P1 q pl H) as (pl2 & H2 & E2).
    destruct (P2 q pl2 H2) as (pl3 & H3 & E3).
    exists pl3. split; [exact H3|].
    eapply same_plane_shape_trans; eassumption.
Qed.

Lemma frame_kept_set_plane (d : mp_audio) (p : nat) (pl pl' : plane) :
  planes d !! p = Some pl -> same_plane_shape pl pl' ->
  frame_kept d (set_plane d p pl').
Proof.
  intros Hp Hs. split.
  - unfold same_shape. simpl. rewrite length_insert. tauto.
  - intros q pl0 H. simpl. destruct (decide (p = q)) as [<-|Hq].
    + exists pl'. split.
      * apply list_lookup_insert_eq. now apply lookup_lt_Some in Hp.
      * congruence.
    + exists pl0. split; [now rewrite list_lookup_insert_ne|].
      apply same_plane_shape_refl.
Qed.

Lemma filter_plane_kept (af af' : af_instance) (data data' : mp_audio)
      (p : nat) :
  filter_plane pow af_softclip af data p = Some (af', data') ->
  frame_kept data data'.
Proof.
  unfold filter_plane. destruct (af_make_writeable af data) as [r af1].
  intros H.
  destruct (bool_decide _).
  - destruct (plane_vol_s16 _) as [vol|]; [|discriminate].
    destruct (negb _); [|injection H as <- <-; apply frame_kept_refl].
    destruct (r <? 0); [injection H as <- <-; apply frame_kept_refl|].
    destruct (planes data !! p) as [[a|a]|] eqn:Hp; try discriminate.
    destruct (scale_s16 _ _ _ _) as [a'|] eqn:Hs; [|discriminate].
    injection H as <- <-. apply (frame_kept_set_plane _ _ _ _ Hp).
    simpl. now apply scale_s16_length in Hs.
  - destruct (bool_decide _); [|injection H as <- <-; apply frame_kept_refl].
    destruct (SFneqb _ _); [|injection H as <- <-; apply frame_kept_refl].
    destruct (r <? 0); [injection H as <- <-; apply frame_kept_refl|].
    destruct (planes data !! p) as [[a|a]|] eqn:Hp; try discriminate.
    destruct (scale_float _ _ _ _ _ _) as [a'|] eqn:Hs; [|discriminate].
    injection H as <- <-. apply (frame_kept_set_plane _ _ _ _ Hp).
    simpl. now apply scale_float_length in Hs.
Qed.

Lemma filter_planes_kept (af af' : af_instance) (data data' : mp_audio)
      (k n : nat) :
  filter_planes pow af_softclip af data k n = Some (af', data') ->
  frame_kept data data'.
Proof.
  revert af data n. induction k as [|k IH]; intros af data n H; simpl in H.
  - injection H as <- <-. apply frame_kept_refl.
  - destruct (filter_plane pow af_softclip af data n) as [[af1 d1]|] eqn:E;
      [|discriminate].
    eapply frame_kept_trans; [eapply filter_plane_kept; exact E|].
    eapply IH; exact H.
Qed.

Lemma filter_plane_metadata (af af' : af_instance) (data data' : mp_audio)
      (p : nat) :
  filter_plane pow af_softclip af data p = Some (af', data') ->
  af_replaygain_data af' = af_replaygain_data af.
Proof.
  assert (Hw : af_replaygain_data (snd (af_make_writeable af data))
               = af_replaygain_data af).
  { unfold af_make_writeable. now destruct (out_pool af) as [|[] pool]. }
  unfold filter_plane. destruct (af_make_writeable af data) as [r af1].
  simpl in Hw. intros H.
  repeat match type of H with
         | context [match ?x with _ => _ end] => destruct x
         end; try discriminate; now injection H as <- <-.
Qed.

Lemma filter_planes_metadata (af af' : af_instance) (data data' : mp_audio)
      (k n : nat) :
  filter_planes pow af_softclip af data k n = Some (af', data') ->
  af_replaygain_data af' = af_replaygain_data af.
Proof.
  revert af data n. induction k as [|k IH]; intros af data n H; simpl in H.
  - now injection H as <- <-.
  - destruct (filter_plane pow af_softclip af data n) as [[af1 d1]|] eqn:E;
      [|discriminate].
    apply filter_plane_metadata in E. apply IH in H. congruence.
Qed.

(** X11. Whatever the format, the gain and the buffer pool, a call of
    [filter] that returns leaves the options, the levels, the metadata and
    [af->data] as they were; for a null frame it does nothing at all, and
    otherwise it queues exactly one frame, which has the format, the sizes,
    the number of planes and, plane by plane, the representation and the
    length of the one it was given. *)
Theorem X11_filter_keeps_shape (af af' : af_instance) (d : option mp_audio)
        (r : Z) :
  filter pow af_softclip af d = Some (r, af') ->
  af_priv af' = af_priv af /\ af_data af' = af_data af /\
  af_replaygain_data af' = af_replaygain_data af /\
  match d with
  | None => af' = af
  | Some data =>
      exists data', out_queued af' = out_queued af ++ [data'] /\
                    frame_kept data data'
  end.
Proof.
  unfold filter. destruct d as [data|].
  - destruct (filter_planes pow af_softclip af data _ 0) as [[af1 d1]|] eqn:E;
      [|discriminate].
    intros [= <- <-].
    pose proof E as E1.
    apply (filter_planes_frame pow af_softclip af_test_output) in E1
      as (H1 & H2 & H3).
    pose proof E as E2. apply filter_planes_metadata in E2.
    apply filter_planes_kept in E.
    simpl. split; [exact H1|]. split; [exact H2|]. split; [exact E2|].
    exists d1. split; [now rewrite H3|exact E].
  - intros [= <- <-]. repeat split.
Qed.

End further.

(** *** Products and comparisons of valid numbers *)

Lemma Zdigits2_mul (a b : Z) :
  0 < a -> 0 < b -> Zdigits2 a + Zdigits2 b - 1 <= Zdigits2 (a * b).
Proof.
  intros Ha Hb.
  pose proof (Zdigits2_bounds a Ha) as [La _].
  pose proof (Zdigits2_bounds b Hb) as [Lb _].
  pose proof (Zdigits2_pos a Ha). pose proof (Zdigits2_pos b Hb).
  assert (H2 : 2 ^ (Zdigits2 a + Zdigits2 b - 2) <= a * b).
  { replace (Zdigits2 a + Zdigits2 b - 2)
      with ((Zdigits2 a - 1) + (Zdigits2 b - 1)) by lia.
    rewrite pow2_split by lia.
    assert (0 < 2 ^ (Zdigits2 a - 1)) by (apply Z.pow_pos_nonneg; lia).
    assert (0 < 2 ^ (Zdigits2 b - 1)) by (apply Z.pow_pos_nonneg; lia).
    nia. }
  assert (H3 : 0 <= 2 ^ (Zdigits2 a + Zdigits2 b - 2))
    by (apply Z.pow_nonneg; lia).
  pose proof (Zdigits2_le _ _ H3 H2) as H4.
  rewrite Zdigits2_pow2 in H4 by lia. lia.
Qed.

(** The product of two numbers of a format is a number of the format. *)
Lemma SFmul_valid (prec emax : Z) (x y : spec_float) :
  0 < prec -> emin prec emax <= 0 ->
  valid_binary prec emax x = true -> valid_binary prec emax y = true ->
  valid_binary prec emax (SFmul prec emax x y) = true.
Proof.
  intros Hprec Hemin Vx Vy.
  destruct x as [sx|sx| |sx mx ex], y as [sy|sy| |sy my ey];
    try reflexivity.
  simpl in Vx, Vy. unfold SFmul.
  apply (round_result_valid prec emax (xorb sx sy)
           (Zpos (mx * my) / 2 ^ (fexp prec emax
                                   (Zdigits2 (Zpos (mx * my)) + (ex + ey))
                                  - (ex + ey)))
           (fexp prec emax (Zdigits2 (Zpos (mx * my)) + (ex + ey)))).
  apply binary_round_aux_spec; [exact Hprec|lia|].
  pose proof (bounded_inv _ _ _ _ Vx) as (Dx & Ex & Fx & _).
  pose proof (bounded_inv _ _ _ _ Vy) as (Dy & Ey & Fy & _).
  pose proof (Zdigits2_mul (Zpos mx) (Zpos my) ltac:(lia) ltac:(lia)) as Hd.
  pose proof (Zdigits2_pos (Zpos mx) ltac:(lia)).
  pose proof (Zdigits2_pos (Zpos my) ltac:(lia)).
  rewrite Pos2Z.inj_mul, fexp_eq.
  destruct (Z.eq_dec ex (emin prec emax)), (Z.eq_dec ey (emin prec emax));
    try rewrite Fx in * by lia; try rewrite Fy in * by lia; lia.
Qed.

Lemma F32_mul_valid (x y : spec_float) :
  F32.valid x = true -> F32.valid y = true -> F32.valid (F32.mul x y) = true.
Proof. apply SFmul_valid; [apply F32_prec_pos|discriminate]. Qed.

Lemma double_to_float_float_to_double (x : spec_float) :
  F32.valid x = true -> double_to_float (float_to_double x) = x.
Proof.
  destruct x as [s|s| |s m e]; try reflexivity.
  apply double_to_float_to_double.
Qed.

Lemma SFcompare_negative (m1 : positive) (e1 : Z) (m2 : positive) (e2 : Z) :
  SFcompare (S754_finite true m1 e1) (S754_finite true m2 e2)
  = SFcompare (S754_finite false m2 e2) (S754_finite false m1 e1).
Proof.
  simpl. rewrite (Z.compare_antisym e1 e2), (ZC4 m2 m1).
  now destruct (e1 ?= e2).
Qed.

(** The conversion of [float] to [double] keeps the order. *)
Lemma float_to_double_compare (x y : spec_float) :
  F32.valid x = true -> F32.valid y = true ->
  SFcompare (float_to_double x) (float_to_double y) = SFcompare x y.
Proof.
  intros Vx Vy.
  assert (Hpos : forall m1 e1 m2 e2 p1 k1 p2 k2,
             bounded F32.prec F32.emax m1 e1 = true ->
             bounded F32.prec F32.emax m2 e2 = true ->
             0 <= k1 -> Zpos p1 = Zpos m1 * 2 ^ k1 ->
             bounded F64.prec F64.emax p1 (e1 - k1) = true ->
             0 <= k2 -> Zpos p2 = Zpos m2 * 2 ^ k2 ->
             bounded F64.prec F64.emax p2 (e2 - k2) = true ->
             SFcompare (S754_finite false p1 (e1 - k1))
                       (S754_finite false p2 (e2 - k2))
             = SFcompare (S754_finite false m1 e1) (S754_finite false m2 e2)).
  { intros m1 e1 m2 e2 p1 k1 p2 k2 B1 B2 K1 P1 Q1 K2 P2 Q2.
    set (c := Z.min (e1 - k1) (e2 - k2)).
    rewrite (SFcompare_bounded F64.prec F64.emax F64_prec_pos
               p1 (e1 - k1) p2 (e2 - k2) c) by (trivial; lia).
    rewrite (SFcompare_bounded F32.prec F32.emax F32_prec_pos
               m1 e1 m2 e2 c) by (trivial; lia).
    rewrite P1, P2. do 2 f_equal.
    - replace (e1 - c) with (k1 + (e1 - k1 - c)) by lia.
      rewrite pow2_split by lia. ring.
    - replace (e2 - c) with (k2 + (e2 - k2 - c)) by lia.
      rewrite pow2_split by lia. ring. }
  destruct x as [sx|sx| |sx mx ex], y as [sy|sy| |sy my ey];
    try reflexivity; simpl in Vx, Vy;
    try (destruct (float_to_double_finite sx mx ex Vx)
          as (p1 & k1 & _ & K1 & E1 & P1 & Q1); rewrite E1);
    try (destruct (float_to_double_finite sy my ey Vy)
          as (p2 & k2 & _ & K2 & E2 & P2 & Q2); rewrite E2);
    try reflexivity.
  destruct sx, sy; try reflexivity.
  - rewrite !SFcompare_negative. now apply Hpos.
  - now apply Hpos.
Qed.

Lemma float_to_double_ltb (x y : spec_float) :
  F32.valid x = true -> F32.valid y = true ->
  SFltb (float_to_double x) (float_to_double y) = SFltb x y.
Proof.
  intros Vx Vy. unfold SFltb. now rewrite float_to_double_compare.
Qed.

Lemma SFleb_SFltb_false (x y : spec_float) :
  SFleb x y = true -> SFltb y x = false.
Proof.
  unfold SFleb, SFltb. rewrite (SFcompare_antisym x y).
  now destruct (SFcompare x y) as [[]|].
Qed.

Lemma SFltb_not_nan (x y : spec_float) : SFltb x y = true -> x <> S754_nan.
Proof. now intros H ->. Qed.

Section further_float.

Variable pow : spec_float -> spec_float -> spec_float.
Variable af_softclip : spec_float -> spec_float.

(** The sample a step of the floating-point loop stores. *)
Lemma scale_float_app (soft : Z) (vol : spec_float) (n : nat)
      (pre a : list spec_float) :
  (n <= length a)%nat ->
  scale_float af_softclip soft vol n (length pre) (pre ++ a)
  = Some (pre
          ++ map (fun x =>
                    double_to_float
                      (if negb (soft =? 0)
                       then float_to_double (af_softclip (F32.mul x vol))
                       else MPCLAMP SFltb (float_to_double (F32.mul x vol))
                                    (SFopp (F64.of_int 1)) (F64.of_int 1)))
                 (take n a)
          ++ drop n a).
Proof.
  revert pre a. induction n as [|n IH]; intros pre a Hn.
  - simpl. now rewrite drop_0.
  - destruct a as [|x a]; [simpl in Hn; lia|]. simpl in Hn.
    cbn [scale_float]. rewrite list_lookup_middle by reflexivity.
    cbv zeta.
    rewrite insert_app_r_alt, Nat.sub_diag by lia.
    cbn [list_insert insert].
    rewrite (cons_middle _ pre a), app_assoc.
    match goal with
    | |- context [pre ++ [?y]] =>
        replace (S (length pre)) with (length (pre ++ [y]))
          by (rewrite length_app; simpl; lia)
    end.
    rewrite IH by lia. rewrite <- app_assoc. reflexivity.
Qed.

Lemma filter_plane_float_run (af : af_instance) (data : mp_audio) (p : nat)
      (vol : spec_float) (a : list spec_float) :
  float_plane_ready pow af data p vol a ->
  filter_plane pow af_softclip af data p
  = Some (snd (af_make_writeable af data),
          set_plane data p
            (PlaneFloat
               (map (fun x =>
                       double_to_float
                         (if negb (soft (af_priv af) =? 0)
                          then float_to_double (af_softclip (F32.mul x vol))
                          else MPCLAMP SFltb (float_to_double (F32.mul x vol))
                                       (SFopp (F64.of_int 1)) (F64.of_int 1)))
                    (take (num_samples data) a)
                ++ drop (num_samples data) a))).
Proof.
  intros (Hf & Hv & Hne & Hw & Hp & Hlen).
  unfold filter_plane. rewrite Hf, Hv. simpl bool_decide. cbv iota.
  rewrite Hne. cbv iota.
  destruct (af_make_writeable af data) as [r af1]. simpl in Hw.
  destruct (Z.ltb_spec r 0) as [Hr|Hr]; [lia|].
  simpl. rewrite Hp. fold (num_samples data).
  pose proof (scale_float_app (soft (af_priv af)) vol (num_samples data) [] a)
    as Hs.
  simpl in Hs. rewrite Hs by (unfold num_samples; lia). reflexivity.
Qed.

Lemma hard_clip_order (t : spec_float) :
  SFltb (F32.of_int 1) t = true -> SFltb t (F32.of_int (-1)) = false.
Proof.
  let v := eval vm_compute in (F32.of_int 1) in
  change (F32.of_int 1) with v.
  let v := eval vm_compute in (F32.of_int (-1)) in
  change (F32.of_int (-1)) with v.
  destruct t as [[]|[]| |[] m e]; try discriminate; reflexivity.
Qed.

(** The clamp of line 140 is computed in [double]; stored back into the
    [float] plane it is the clamp of the [float] product itself. *)
Lemma hard_clip_step (t : spec_float) :
  F32.valid t = true ->
  double_to_float (MPCLAMP SFltb (float_to_double t)
                           (SFopp (F64.of_int 1)) (F64.of_int 1))
  = MPCLAMP SFltb t (F32.of_int (-1)) (F32.of_int 1).
Proof.
  intros Ht.
  assert (V1 : F32.valid (F32.of_int (-1)) = true) by reflexivity.
  assert (V2 : F32.valid (F32.of_int 1) = true) by reflexivity.
  replace (SFopp (F64.of_int 1)) with (float_to_double (F32.of_int (-1)))
    by (vm_compute; reflexivity).
  replace (F64.of_int 1) with (float_to_double (F32.of_int 1))
    by (vm_compute; reflexivity).
  unfold MPCLAMP. rewrite !float_to_double_ltb by assumption.
  destruct (SFltb t (F32.of_int (-1)));
    [now apply double_to_float_float_to_double|].
  destruct (SFltb (F32.of_int 1) t);
    now apply double_to_float_float_to_double.
Qed.

(** X12. In the floating-point path without soft clipping each of the first
    [num_samples] samples [x] becomes the product [x * vol], rounded to
    [float] and clamped to [-1.0 .. 1.0]: a product within the range is
    stored as it is, one below becomes [-1.0], one above becomes [1.0], so
    the stored sample is NaN exactly when the product is and lies within
    [-1.0 .. 1.0] otherwise.  The plane keeps its length and the samples
    behind stay. *)
Theorem X12_float_hard_clip (af : af_instance) (data : mp_audio) (p : nat)
        (vol : spec_float) (a : list spec_float) :
  float_plane_ready pow af data p vol a ->
  soft (af_priv af) = 0 ->
  F32.valid vol = true ->
  Forall (fun x => F32.valid x = true) a ->
  exists a',
    filter_plane pow af_softclip af data p
    = Some (snd (af_make_writeable af data),
            set_plane data p (PlaneFloat a')) /\
    length a' = length a /\
    (forall i x, (i < num_samples data)%nat -> a !! i = Some x ->
       exists y, a' !! i = Some y /\
         (SFleb (F32.of_int (-1)) (F32.mul x vol) = true ->
          SFleb (F32.mul x vol) (F32.of_int 1) = true ->
          y = F32.mul x vol) /\
         (SFltb (F32.mul x vol) (F32.of_int (-1)) = true ->
          y = F32.of_int (-1)) /\
         (SFltb (F32.of_int 1) (F32.mul x vol) = true -> y = F32.of_int 1) /\
         (F32.mul x vol = S754_nan -> y = S754_nan) /\
         (F32.mul x vol <> S754_nan ->
          SFleb (F32.of_int (-1)) y = true /\
          SFleb y (F32.of_int 1) = true)) /\
    (forall i, (num_samples data <= i)%nat -> a' !! i = a !! i).
Proof.
  intros Hready Hsoft Hvol Ha.
  pose proof Hready as (_ & _ & _ & _ & Hp & Hlen).
  eexists. split; [apply filter_plane_float_run; exact Hready|].
  rewrite Hsoft. simpl negb. cbv iota.
  split; [|split].
  - rewrite length_app, length_map, length_take, length_drop.
    unfold num_samples. lia.
  - intros i x Hi Hx. rewrite lookup_scaled. destruct (decide _); [|lia].
    rewrite Hx. cbn [fmap option_fmap option_map]. eexists.
    split; [reflexivity|].
    assert (Vx : F32.valid x = true).
    { rewrite Forall_lookup in Ha. exact (Ha i x Hx). }
    pose proof (F32_mul_valid x vol Vx Hvol) as Vt.
    rewrite (hard_clip_step _ Vt).
    set (t := F32.mul x vol) in *. clearbody t.
    split; [|split; [|split; [|split]]].
    + intros H1 H2. unfold MPCLAMP.
      now rewrite (SFleb_SFltb_false _ _ H1), (SFleb_SFltb_false _ _ H2).
    + intros H. unfold MPCLAMP. now rewrite H.
    + intros H. unfold MPCLAMP.
      now rewrite (hard_clip_order _ H), H.
    + now intros ->.
    + intros Hn. apply MPCLAMP_SF_range; try easy.
  - intros i Hi. rewrite lookup_scaled. destruct (decide _); [lia|].
    reflexivity.
Qed.

(** X13. With soft clipping on, each of the first [num_samples] samples
    [x] becomes [af_softclip (x * vol)] and is not clamped afterwards,
    provided [af_softclip] returns numbers of the [float] format. *)
Theorem X13_float_soft_clip (af : af_instance) (data : mp_audio) (p : nat)
        (vol : spec_float) (a : list spec_float) :
  float_plane_ready pow af data p vol a ->
  soft (af_priv af) <> 0 ->
  (forall z, F32.valid (af_softclip z) = true) ->
  exists a',
    filter_plane pow af_softclip af data p
    = Some (snd (af_make_writeable af data),
            set_plane data p (PlaneFloat a')) /\
    length a' = length a /\
    (forall i x, (i < num_samples data)%nat -> a !! i = Some x ->
       a' !! i = Some (af_softclip (F32.mul x vol))) /\
    (forall i, (num_samples data <= i)%nat -> a' !! i = a !! i).
Proof.
  intros Hready Hsoft Hclip.
  pose proof Hready as (_ & _ & _ & _ & Hp & Hlen).
  eexists. split; [apply filter_plane_float_run; exact Hready|].
  apply Z.eqb_neq in Hsoft. rewrite Hsoft. simpl negb. cbv iota.
  split; [|split].
  - rewrite length_app, length_map, length_take, length_drop.
    unfold num_samples. lia.
  - intros i x Hi Hx. rewrite lookup_scaled. destruct (decide _); [|lia].
    rewrite Hx. cbn [fmap option_fmap option_map]. f_equal.
    apply double_to_float_float_to_double, Hclip.
  - intros i Hi. rewrite lookup_scaled. destruct (decide _); [lia|].
    reflexivity.
Qed.

(** X14. With [volumedb] at -200 or below and a finite [level * rgain] the
    floating-point path without soft clipping turns every finite sample it
    visits into a zero. *)
Theorem X14_float_mute (af : af_instance) (data : mp_audio) (p : nat)
        (a : list spec_float) :
  SFleb (cfg_volume (af_priv af)) (F32.of_int (-200)) = true ->
  SFfinite (F32.mul (level (af_priv af)) (rgain (af_priv af))) = true ->
  af_fmt_from_planar (format (af_data af)) = AF_FORMAT_FLOAT ->
  soft (af_priv af) = 0 ->
  0 <= fst (af_make_writeable af data) ->
  planes data !! p = Some (PlaneFloat a) ->
  int_mul (samples data) (spf data) <= Z.of_nat (length a) ->
  exists a',
    filter_plane pow af_softclip af data p
    = Some (snd (af_make_writeable af data),
            set_plane data p (PlaneFloat a')) /\
    (forall i x, (i < num_samples data)%nat -> a !! i = Some x ->
       SFfinite x = true ->
       exists sz, a' !! i = Some (S754_zero sz)).
Proof.
  intros Hc Hfin Hf Hsoft Hw Hp Hlen.
  destruct (plane_level_silence pow _ Hc Hfin) as [sv Hv].
  assert (Hready : float_plane_ready pow af data p (S754_zero sv) a).
  { repeat split; assumption. }
  eexists. split; [apply filter_plane_float_run; exact Hready|].
  rewrite Hsoft. simpl negb. cbv iota.
  intros i x Hi Hx Hfx. rewrite lookup_scaled. destruct (decide _); [|lia].
  rewrite Hx. cbn [fmap option_fmap option_map].
  destruct x as [sx|sx| |sx m e]; try discriminate.
  - now exists (xorb sx sv).
  - now exists (xorb sx sv).
Qed.

End further_float.

(** X15. The fixed-point gain of a negative level is the negated gain of
    its absolute value: [256 * level] is truncated toward zero on both
    sides. *)
Theorem X15_integer_gain_negative (m : positive) (e : Z) :
  F32.valid (S754_finite true m e) = true ->
  Z.shiftl (Zpos m) (e + 8) <= INT_MAX ->
  plane_vol_s16 (S754_finite false m e) = Some (Z.shiftl (Zpos m) (e + 8)) /\
  plane_vol_s16 (S754_finite true m e) = Some (- Z.shiftl (Zpos m) (e + 8)).
Proof.
  intros Hb Hz.
  assert (0 <= Z.shiftl (Zpos m) (e + 8)) by (apply Z.shiftl_nonneg; lia).
  unfold plane_vol_s16. rewrite !double_to_int_mul_256 by exact Hb.
  simpl cond_Zopp. cbv zeta. unfold INT_MIN, INT_MAX in *.
  split.
  - destruct (Z.leb_spec (- 2 ^ 31) (Z.shiftl (Zpos m) (e + 8))); [|lia].
    destruct (Z.leb_spec (Z.shiftl (Zpos m) (e + 8)) (2 ^ 31 - 1)); [|lia].
    reflexivity.
  - destruct (Z.leb_spec (- 2 ^ 31) (- Z.shiftl (Zpos m) (e + 8))); [|lia].
    destruct (Z.leb_spec (- Z.shiftl (Zpos m) (e + 8)) (2 ^ 31 - 1)); [|lia].
    reflexivity.
Qed.

(** ** The further properties on sample frames *)

Ltac ready :=
  unfold s16_plane_ready, float_plane_ready;
  repeat match goal with |- _ /\ _ => split end;
  first [vm_compute; reflexivity | vm_compute; discriminate].

(** X3 with [replaygain-fallback = -200] and metadata that no option asks
    for: the gain is 0. *)
Lemma X3_fallback_gain_witness :
  rgain (reinit_rgain pow_sample priv_fallback
                      (Some (rg_peak (F32.of_int 1))))
  = S754_zero false.
Proof.
  exact (proj2 (proj2 (X3_fallback_gain pow_sample priv_fallback
                         (Some (rg_peak (F32.of_int 1)))
                         (or_introl (conj eq_refl eq_refl))))
               eq_refl).
Defined.

(** X5 with the option [detach] set and everything else at its default. *)
Lemma X5_open_reinit_detaches_witness :
  let af := af0 priv_detach AF_FORMAT_S16 [] in
  fst (af_open af) = AF_OK /\
  c_ret (control pow_sample test_output_sample (snd (af_open af))
                 (AF_CONTROL_REINIT (audio0 AF_FORMAT_S16 [] 0))) = AF_DETACH.
Proof.
  intros af.
  refine (X5_open_reinit_detaches pow_sample test_output_sample af
            (audio0 AF_FORMAT_S16 [] 0) eq_refl eq_refl _ _).
  - vm_compute; reflexivity.
  - vm_compute; discriminate.
Defined.

Lemma ready_half :
  s16_plane_ready pow_sample (af0 priv_half AF_FORMAT_S16 []) frame_s16 0
                  128 samples_s16.
Proof. ready. Qed.

(** X6 at gain 0.5 ([vol = 128]). *)
Lemma X6_fixed_point_range_witness :
  let af := af0 priv_half AF_FORMAT_S16 [] in
  exists a',
    filter_plane pow_sample softclip_sample af frame_s16 0
    = Some (snd (af_make_writeable af frame_s16),
            set_plane frame_s16 0 (PlaneS16 a')) /\
    length a' = length samples_s16 /\
    (forall i y, (i < num_samples frame_s16)%nat -> a' !! i = Some y ->
                 SHRT_MIN <= y <= SHRT_MAX) /\
    (forall i, (num_samples frame_s16 <= i)%nat ->
               a' !! i = samples_s16 !! i) /\
    (forall q, q <> 0%nat ->
               planes (set_plane frame_s16 0 (PlaneS16 a')) !! q
               = planes frame_s16 !! q).
Proof.
  intros af.
  exact (X6_fixed_point_range pow_sample softclip_sample af frame_s16 0%nat
           128 samples_s16 ready_half).
Defined.

(** X7 at gain 0.5. *)
Lemma X7_fixed_point_attenuation_witness :
  let af := af0 priv_half AF_FORMAT_S16 [] in
  exists a',
    filter_plane pow_sample softclip_sample af frame_s16 0
    = Some (snd (af_make_writeable af frame_s16),
            set_plane frame_s16 0 (PlaneS16 a')) /\
    forall i x, (i < num_samples frame_s16)%nat -> samples_s16 !! i = Some x ->
                SHRT_MIN <= x <= SHRT_MAX ->
                exists y, a' !! i = Some y /\
                          (0 <= x -> 0 <= y <= x) /\
                          (x < 0 -> x <= y <= -1).
Proof.
  intros af.
  refine (X7_fixed_point_attenuation pow_sample softclip_sample af frame_s16
            0%nat 128 samples_s16 ready_half _).
  lia.
Defined.

(** X8 at gain 0.5. *)
Lemma X8_fixed_point_monotone_witness :
  let af := af0 priv_half AF_FORMAT_S16 [] in
  exists a',
    filter_plane pow_sample softclip_sample af frame_s16 0
    = Some (snd (af_make_writeable af frame_s16),
            set_plane frame_s16 0 (PlaneS16 a')) /\
    forall i j x1 x2, (i < num_samples frame_s16)%nat ->
                      (j < num_samples frame_s16)%nat ->
                      samples_s16 !! i = Some x1 ->
                      samples_s16 !! j = Some x2 -> x1 <= x2 ->
                      exists y1 y2, a' !! i = Some y1 /\ a' !! j = Some y2 /\
                                    y1 <= y2.
Proof.
  intros af.
  refine (X8_fixed_point_monotone pow_sample softclip_sample af frame_s16
            0%nat 128 samples_s16 ready_half _ _).
  - lia.
  - repeat (constructor; [split; vm_compute; discriminate|]). constructor.
Defined.

(** X9 at [volumedb = -200]. *)
Lemma X9_fixed_point_mute_witness :
  let af := af0 priv_mute AF_FORMAT_S16 [] in
  plane_vol_s16 (plane_level pow_sample (af_priv af)) = Some 0 /\
  exists a',
    filter_plane pow_sample softclip_sample af frame_s16 0
    = Some (snd (af_make_writeable af frame_s16),
            set_plane frame_s16 0 (PlaneS16 a')) /\
    length a' = length samples_s16 /\
    forall i, (i < num_samples frame_s16)%nat -> a' !! i = Some 0.
Proof.
  intros af.
  refine (X9_fixed_point_mute pow_sample softclip_sample af frame_s16 0%nat
            samples_s16 _ _ eq_refl _ eq_refl _).
  - vm_compute; reflexivity.
  - vm_compute; reflexivity.
  - vm_compute; discriminate.
  - vm_compute; discriminate.
Defined.

(** X10 at gain 0.5 with a pool of one entry: the frame that is queued. *)
Lemma X10_fixed_point_frame_witness :
  filter pow_sample softclip_sample af_half (Some frame_s16)
  = Some (0, af_add_output_frame (af0 priv_half AF_FORMAT_S16 [])
               (audio0 AF_FORMAT_S16 [PlaneS16 [5000; -15000; 7]] 2)).
Proof.
  refine (eq_trans
            (X10_fixed_point_frame pow_sample softclip_sample af_half
               frame_s16 128 [samples_s16] eq_refl _ _ _ eq_refl eq_refl
               _ _) _).
  - vm_compute; reflexivity.
  - discriminate.
  - repeat constructor.
  - repeat (constructor; [vm_compute; lia|]). constructor.
  - repeat constructor; vm_compute; discriminate.
  - vm_compute; reflexivity.
Defined.

(** X11 on a frame for which no writable copy can be had. *)
Lemma X11_filter_keeps_shape_witness :
  let af' := af_add_output_frame (snd (af_make_writeable af_oom frame_oom))
                                 frame_oom in
  af_priv af' = af_priv af_oom /\ af_data af' = af_data af_oom /\
  af_replaygain_data af' = af_replaygain_data af_oom /\
  exists data', out_queued af' = out_queued af_oom ++ [data'] /\
                frame_kept frame_oom data'.
Proof.
  intros af'.
  refine (X11_filter_keeps_shape pow_sample softclip_sample test_output_sample
            af_oom af' (Some frame_oom) 0 _).
  vm_compute; reflexivity.
Defined.

Lemma ready_float :
  float_plane_ready pow_sample (af0 priv_gain2 AF_FORMAT_FLOAT []) frame_float
                    0 (F32.of_int 2) samples_float.
Proof. ready. Qed.

(** X12 at gain 2.0. *)
Lemma X12_float_hard_clip_witness :
  let af := af0 priv_gain2 AF_FORMAT_FLOAT [] in
  let vol := F32.of_int 2 in
  exists a',
    filter_plane pow_sample softclip_sample af frame_float 0
    = Some (snd (af_make_writeable af frame_float),
            set_plane frame_float 0 (PlaneFloat a')) /\
    length a' = length samples_float /\
    (forall i x, (i < num_samples frame_float)%nat ->
       samples_float !! i = Some x ->
       exists y, a' !! i = Some y /\
         (SFleb (F32.of_int (-1)) (F32.mul x vol) = true ->
          SFleb (F32.mul x vol) (F32.of_int 1) = true ->
          y = F32.mul x vol) /\
         (SFltb (F32.mul x vol) (F32.of_int (-1)) = true ->
          y = F32.of_int (-1)) /\
         (SFltb (F32.of_int 1) (F32.mul x vol) = true -> y = F32.of_int 1) /\
         (F32.mul x vol = S754_nan -> y = S754_nan) /\
         (F32.mul x vol <> S754_nan ->
          SFleb (F32.of_int (-1)) y = true /\
          SFleb y (F32.of_int 1) = true)) /\
    (forall i, (num_samples frame_float <= i)%nat ->
               a' !! i = samples_float !! i).
Proof.
  intros af vol.
  refine (X12_float_hard_clip pow_sample softclip_sample af frame_float 0%nat
            vol samples_float ready_float eq_refl _ _).
  - vm_compute; reflexivity.
  - repeat (constructor; [vm_compute; reflexivity|]). constructor.
Defined.

Lemma ready_soft :
  float_plane_ready pow_sample (af0 priv_soft AF_FORMAT_FLOAT []) frame_float
                    0 (F32.of_int 2) samples_float.
Proof. ready. Qed.

(** X13 at gain 2.0. *)
Lemma X13_float_soft_clip_witness :
  let af := af0 priv_soft AF_FORMAT_FLOAT [] in
  exists a',
    filter_plane pow_sample softclip_valid_sample af frame_float 0
    = Some (snd (af_make_writeable af frame_float),
            set_plane frame_float 0 (PlaneFloat a')) /\
    length a' = length samples_float /\
    (forall i x, (i < num_samples frame_float)%nat ->
       samples_float !! i = Some x ->
       a' !! i = Some (softclip_valid_sample (F32.mul x (F32.of_int 2)))) /\
    (forall i, (num_samples frame_float <= i)%nat ->
               a' !! i = samples_float !! i).
Proof.
  intros af.
  refine (X13_float_soft_clip pow_sample softclip_valid_sample af frame_float
            0%nat (F32.of_int 2) samples_float ready_soft _ _).
  - discriminate.
  - intros z. unfold softclip_valid_sample.
    destruct (F32.valid z) eqn:E; [exact E|reflexivity].
Defined.

(** X14 at [volumedb = -200]. *)
Lemma X14_float_mute_witness :
  let af := af0 priv_mute AF_FORMAT_FLOAT [] in
  exists a',
    filter_plane pow_sample softclip_sample af frame_float 0
    = Some (snd (af_make_writeable af frame_float),
            set_plane frame_float 0 (PlaneFloat a')) /\
    (forall i x, (i < num_samples frame_float)%nat ->
       samples_float !! i = Some x -> SFfinite x = true ->
       exists sz, a' !! i = Some (S754_zero sz)).
Proof.
  intros af.
  refine (X14_float_mute pow_sample softclip_sample af frame_float 0%nat
            samples_float _ _ eq_refl eq_refl _ eq_refl _).
  - vm_compute; reflexivity.
  - vm_compute; reflexivity.
  - vm_compute; discriminate.
  - vm_compute; discriminate.
Defined.

(** X15 at the level -0.5. *)
Lemma X15_integer_gain_negative_witness :
  plane_vol_s16 (S754_finite false 8388608 (-24)) = Some 128 /\
  plane_vol_s16 (S754_finite true 8388608 (-24)) = Some (-128).
Proof.
  refine (X15_integer_gain_negative 8388608 (-24) _ _).
  - vm_compute; reflexivity.
  - vm_compute; discriminate.
Defined.
